(** * Diwan migration scripts: a shallow embedding and its properties

    The repository holds three one-shot Python scripts that rewrite
    TypeScript controllers in place:

    - [fix_errors.py]: five whole-text patchers built from [re.sub];
    - [fix_notifications.py]: one whole-text patcher, run on two files;
    - [fix_user_controller.py]: a line-indexed patcher (a [while] loop over
      [splitlines()] with index guards and a brace-depth skip).

    Text is modelled as a list of Unicode code points, the file system as a
    finite map from paths to text, and the scripts as computations in a
    small state-and-exception monad that also logs every primitive file
    operation. *)

From Stdlib Require Import NArith ZArith Lia Bool List Ascii String Sorted.
From stdpp Require Import base list gmap strings.

Set Default Proof Using "Type".
Local Open Scope N_scope.

(** ** Text *)

Module Text.

(** A Python [str] is a sequence of code points. *)
Abbreviation char := N.
Abbreviation str := (list char).

(** ASCII literals of the source, written as Rocq strings. *)
Definition lit (s : string) : str :=
  List.map N_of_ascii (list_ascii_of_string s).

Definition LF : char := 10.
Definition CR : char := 13.

(** [str.isspace] on one code point, which is also what [\s] matches in a
    [str] pattern and what [lstrip()] removes. *)
Definition isspace (c : char) : bool :=
  ((9 <=? c) && (c <=? 13)) || ((28 <=? c) && (c <=? 32))
  || (c =? 133) || (c =? 160) || (c =? 5760)
  || ((8192 <=? c) && (c <=? 8202))
  || (c =? 8232) || (c =? 8233) || (c =? 8239) || (c =? 8287)
  || (c =? 12288).

(** The line boundaries of [str.splitlines]. *)
Definition is_linebreak (c : char) : bool :=
  ((10 <=? c) && (c <=? 13)) || ((28 <=? c) && (c <=? 30))
  || (c =? 133) || (c =? 8232) || (c =? 8233).

(** [s.startswith(p)] *)
Fixpoint startswith (p s : str) : bool :=
  match p, s with
  | [], _ => true
  | a :: p', b :: s' => (a =? b) && startswith p' s'
  | _ :: _, [] => false
  end.

(** [p in s] for two strings: substring containment. *)
Fixpoint contains (p s : str) : bool :=
  startswith p s ||
  match s with
  | [] => false
  | _ :: s' => contains p s'
  end.

(** Equality of two strings, [a == b]. *)
Fixpoint str_eqb (a b : str) : bool :=
  match a, b with
  | [], [] => true
  | x :: a', y :: b' => (x =? y) && str_eqb a' b'
  | _, _ => false
  end.

(** [x in xs] for a string and a LIST of strings: Python compares [x] with
    every element by [==]. *)
Fixpoint list_contains (x : str) (xs : list str) : bool :=
  match xs with
  | [] => false
  | y :: ys => str_eqb y x || list_contains x ys
  end.

(** [s.replace(old, new)]: every non-overlapping occurrence, leftmost
    first.  [skip] counts the characters of the current occurrence that are
    still to be passed over. *)
Fixpoint replace_go (old new : str) (skip : nat) (s : str) : str :=
  match s with
  | [] =>
      match skip, old with
      | O, [] => new
      | _, _ => []
      end
  | c :: s' =>
      match skip with
      | S k => replace_go old new k s'
      | O =>
          if startswith old s then
            match length old with
            | O => new ++ c :: replace_go old new 0 s'
            | S k => new ++ replace_go old new k s'
            end
          else c :: replace_go old new 0 s'
      end
  end.

Definition replace (old new s : str) : str := replace_go old new 0 s.

(** [s.lstrip()] *)
Fixpoint lstrip (s : str) : str :=
  match s with
  | c :: s' => if isspace c then lstrip s' else s
  | [] => []
  end.

(** [s.splitlines()]: the lines without their terminators; [\r\n] is one
    terminator; a terminator at the very end opens no further line. *)
Fixpoint splitlines (s : str) : list str :=
  match s with
  | [] => []
  | c :: s' =>
      if is_linebreak c then
        if c =? CR then
          match s' with
          | d :: s'' => if d =? LF then [] :: splitlines s''
                        else [] :: splitlines s'
          | [] => [] :: splitlines s'
          end
        else [] :: splitlines s'
      else
        match splitlines s' with
        | [] => [[c]]
        | l :: ls => (c :: l) :: ls
        end
  end.

(** [sep.join(xs)] *)
Fixpoint join (sep : str) (xs : list str) : str :=
  match xs with
  | [] => []
  | [x] => x
  | x :: xs' => x ++ sep ++ join sep xs'
  end.

(** Number of occurrences of one code point. *)
Fixpoint count_char (c : char) (s : str) : nat :=
  match s with
  | [] => O
  | d :: s' =>
      if d =? c then S (count_char c s') else count_char c s'
  end.

End Text.

(** ** Regular expressions: the fragment of Python's [re] the scripts use *)

Module Re.
Import Text.

(** Character classes of the source's patterns: [\s] and the negated sets
    [[^\n]], [[^,\n]], [[^}]]. *)
Inductive cls :=
  | Space
  | NoneOf (cs : list char).

Definition in_cls (k : cls) (c : char) : bool :=
  match k with
  | Space => isspace c
  | NoneOf cs => negb (existsb (N.eqb c) cs)
  end.

(** The patterns of the three scripts are built from literal text, a greedy
    [*] or [+] over a class, concatenation, alternation and numbered
    capturing groups; [One] is a single character of a class. *)
Inductive regex :=
  | Lit (l : str)
  | One (k : cls)
  | Star (k : cls)
  | Plus (k : cls)
  | Seq (a b : regex)
  | Alt (a b : regex)
  | Group (n : nat) (a : regex).

(** A concatenation of several pieces. *)
Definition seqs (rs : list regex) : regex := foldr Seq (Lit []) rs.

(** Captured groups, most recent binding first. *)
Definition caps := list (nat * str).

Fixpoint cap_get (n : nat) (g : caps) : option str :=
  match g with
  | [] => None
  | (m, v) :: g' => if Nat.eqb m n then Some v else cap_get n g'
  end.

(** Greedy repetition of one class with backtracking: take as many
    characters as possible, give them back one at a time while the rest of
    the pattern ([k]) fails. *)
Fixpoint star_k {R : Type} (c : cls) (s : str) (k : str -> option R)
  : option R :=
  match s with
  | ch :: s' =>
      if in_cls c ch then
        match star_k c s' k with
        | Some r => Some r
        | None => k s
        end
      else k s
  | [] => k s
  end.

(** Backtracking match of [r] at the head of [s], in continuation-passing
    style; the answer is the unconsumed rest and the groups. *)
Fixpoint m (r : regex) (s : str) (g : caps)
    (k : str -> caps -> option (str * caps)) : option (str * caps) :=
  match r with
  | Lit l => if startswith l s then k (drop (length l) s) g else None
  | One c =>
      match s with
      | ch :: s' => if in_cls c ch then k s' g else None
      | [] => None
      end
  | Star c => star_k c s (fun s' => k s' g)
  | Plus c =>
      match s with
      | ch :: s' => if in_cls c ch then star_k c s' (fun s'' => k s'' g)
                    else None
      | [] => None
      end
  | Seq a b => m a s g (fun s' g' => m b s' g' k)
  | Alt a b =>
      match m a s g k with
      | Some x => Some x
      | None => m b s g k
      end
  | Group n a =>
      m a s g (fun s' g' =>
        k s' ((n, take (length s - length s') s) :: g'))
  end.

(** [pattern.match(s)] at position 0 of [s]: number of characters matched
    and the groups. *)
Definition match_at (r : regex) (s : str) : option (nat * caps) :=
  match m r s [] (fun s' g => Some (s', g)) with
  | Some (rest, g) => Some ((length s - length rest)%nat, g)
  | None => None
  end.

(** Replacement templates: literal text and [\k] group references; a group
    that did not take part expands to the empty string. *)
Inductive titem :=
  | TLit (l : str)
  | TRef (n : nat).

Definition template := list titem.

Fixpoint expand (t : template) (g : caps) : str :=
  match t with
  | [] => []
  | TLit l :: t' => l ++ expand t' g
  | TRef n :: t' => default [] (cap_get n g) ++ expand t' g
  end.

(** [re.subn(pattern, repl, s, count)]: scan left to right, replace each
    match and resume after its end; [count = 0] means no limit; [n] is the
    number of replacements made so far, [skip] the characters of the
    current match still to be passed over. *)
Definition may_replace (count n : nat) : bool :=
  Nat.eqb count 0 || Nat.ltb n count.

Fixpoint subn_go (r : regex) (t : template) (count n skip : nat) (s : str)
  : str * nat :=
  match s with
  | [] =>
      match skip with
      | S _ => ([], n)
      | O =>
          if may_replace count n then
            match match_at r [] with
            | Some (_, g) => (expand t g, S n)
            | None => ([], n)
            end
          else ([], n)
      end
  | c :: s' =>
      match skip with
      | S k => subn_go r t count n k s'
      | O =>
          if may_replace count n then
            match match_at r s with
            | Some (O, g) =>
                let '(out, n') := subn_go r t count (S n) 0 s' in
                (expand t g ++ c :: out, n')
            | Some (S k, g) =>
                let '(out, n') := subn_go r t count (S n) k s' in
                (expand t g ++ out, n')
            | None =>
                let '(out, n') := subn_go r t count n 0 s' in
                (c :: out, n')
            end
          else (s, n)
      end
  end.

Definition subn (r : regex) (t : template) (s : str) (count : nat)
  : str * nat :=
  subn_go r t count 0 0 s.

(** [re.sub] is [re.subn] without the count. *)
Definition sub (r : regex) (t : template) (s : str) (count : nat) : str :=
  fst (subn r t s count).

End Re.

(** ** The file system and the effects of a script *)

(** A file is the text that [read_text] returns for it and that
    [write_text] receives: decoding, encoding and the translation of line
    endings by text-mode files are below this model.  Directories are not
    modelled: writing to a path always succeeds. *)

Module Fs.
Import Text.

Abbreviation path := string.

(** The exception the scripts can meet is that of [read_text] on a missing
    file.  [OutOfFuel] belongs to the model only: it marks a loop that was
    given too few iterations, and is never raised (see
    [LineFacts.run_loop_ok]). *)
Inductive exn :=
  | FileNotFoundError (p : path)
  | OutOfFuel.

(** Primitive file operations.  [Path.write_text] is [open(p, 'w')], which
    creates or truncates the file at once, followed by the write of the
    data; [OpRename] is [os.replace]. *)
Inductive fs_op :=
  | OpRead (p : path)
  | OpTruncate (p : path)
  | OpWrite (p : path) (data : str)
  | OpRename (src dst : path).

Definition apply_op (o : fs_op) (fs : gmap path str) : gmap path str :=
  match o with
  | OpRead _ => fs
  | OpTruncate p => <[p := []]> fs
  | OpWrite p data => <[p := default [] (fs !! p) ++ data]> fs
  | OpRename src dst =>
      match fs !! src with
      | Some c => <[dst := c]> (delete src fs)
      | None => fs
      end
  end.

(** The file system after the operations [os], oldest first. *)
Definition replay (os : list fs_op) (fs : gmap path str) : gmap path str :=
  foldl (fun acc o => apply_op o acc) fs os.

Record world := World {
  files : gmap path str;
  ops : list fs_op;
  stdout : list string
}.

Inductive result (A : Type) :=
  | Ok (a : A)
  | Raise (e : exn).
Arguments Ok {A} a.
Arguments Raise {A} e.

(** State and exception: an exception ends the computation and keeps the
    world as it was when it was raised. *)
Definition M (A : Type) := world -> result A * world.

Definition ret {A} (a : A) : M A := fun w => (Ok a, w).

Definition bind {A B} (c : M A) (f : A -> M B) : M B :=
  fun w =>
    match c w with
    | (Ok a, w') => f a w'
    | (Raise e, w') => (Raise e, w')
    end.

Definition do_op (o : fs_op) : M unit :=
  fun w => (Ok tt, World (apply_op o (files w)) (ops w ++ [o]) (stdout w)).

(** [Path(p).read_text(encoding='utf-8')] *)
Definition read_text (p : path) : M str :=
  fun w =>
    match files w !! p with
    | Some c => (Ok c, World (files w) (ops w ++ [OpRead p]) (stdout w))
    | None => (Raise (FileNotFoundError p), w)
    end.

(** [Path(p).write_text(data, encoding='utf-8')] *)
Definition write_text (p : path) (data : str) : M unit :=
  bind (do_op (OpTruncate p)) (fun _ => do_op (OpWrite p data)).

(** [print(line)] *)
Definition print (line : string) : M unit :=
  fun w => (Ok tt, World (files w) (ops w) (stdout w ++ [line])).

(** Exit status of the interpreter: 0 when the script ran to its end, 1
    when an exception reached the top level. *)
Definition exit_status {A} (r : result A) : Z :=
  match r with
  | Ok _ => 0%Z
  | Raise _ => 1%Z
  end.

Definition init (fs : gmap path str) : world := World fs [] [].

End Fs.

Declare Scope script_scope.
Delimit Scope script_scope with script.
Notation "x <- c ;; k" := (Fs.bind c (fun x => k))
  (at level 100, c at next level, right associativity) : script_scope.
Notation "c ;; k" := (Fs.bind c (fun _ => k))
  (at level 100, right associativity) : script_scope.

(** ** fix_errors.py *)

Module FixErrors.
Import Text Re Fs.
Local Open Scope string_scope.
Local Open Scope script_scope.

Definition L (s : string) : regex := Lit (lit s).
Definition T (s : string) : titem := TLit (lit s).
Definition ws : regex := Star Space.
Definition nl : str := [LF].

(** One [content = re.sub(pattern, repl, content, count)] statement. *)
Record rule := Rule {
  pattern : regex;
  repl : template;
  count : nat
}.

Definition apply_rule (r : rule) (content : str) : str :=
  sub (pattern r) (repl r) content (count r).

(** The statements of one patcher, in program order. *)
Definition apply_rules (rs : list rule) (content : str) : str :=
  foldl (fun c r => apply_rule r c) content rs.

(** *** fix_status_controller *)

Definition order_by_rule : rule :=
  Rule (L "orderBy: { createdAt: 'desc' }")
       [T "orderBy: { timestamp: 'desc' }"] 0.

Definition status_created_at_rule : rule :=
  Rule (seqs [L "createdAt: true,"; ws; L "user:"])
       [T "timestamp: true,"; TLit nl; T "        user:"] 0.

Definition status_user_id_rule : rule :=
  Rule (seqs [L "userId: ";
              Group 1 (Alt (L "validatedData.assignToId")
                      (Alt (L "document.createdById")
                           (L "doc.createdById")))])
       [T "recipientUserId: "; TRef 1] 0.

Definition status_select_rule : rule :=
  Rule (L "select: { id: true, fullName: true, role: true, status: true }")
       [T "select: { id: true, fullName: true, role: true, isActive: true }"]
       0.

Definition assignee_rule : rule :=
  Rule (L "assignee.status !== 'ACTIVE'") [T "!assignee.isActive"] 0.

Definition status_rules : list rule :=
  [order_by_rule; status_created_at_rule; status_user_id_rule;
   status_select_rule; assignee_rule].

Definition status_path : path := "backend/src/controllers/statusController.ts".

Definition fix_status_controller : M unit :=
  let file_path := status_path in
  content <- read_text file_path ;;
  let content := apply_rules status_rules content in
  write_text file_path content ;;
  print ("Fixed " ++ file_path).

(** *** fix_user_controller *)

Definition import_rule : rule :=
  Rule (L "import { PrismaClient, Role, UserStatus } from '../generated/prisma';")
       [T "import { PrismaClient, UserRole } from '../generated/prisma';"] 0.

Definition user_created_at_rule : rule :=
  Rule (seqs [L "createdAt: true,"; ws;
              Group 1 (Alt (L "details") (L "user")); L ":"])
       [T "timestamp: true,"; TLit nl; T "          "; TRef 1; T ":"] 0.

Definition user_user_id_rule : rule :=
  Rule (seqs [L "userId: ";
              Group 1 (Alt (L "newUser.id")
                      (Alt (L "updatedUser.id") (L "existingUser.id")))])
       [T "recipientUserId: "; TRef 1] 0.

Definition zod_status_rule : rule :=
  Rule (L "status: z.nativeEnum(UserStatus).optional()")
       [T "isActive: z.boolean().optional()"] 0.

Definition status_active_rule : rule :=
  Rule (L "status: 'ACTIVE'") [T "isActive: true"] 0.

Definition zod_errors_rule : rule :=
  Rule (L "errors: error.errors") [T "errors: error.issues"] 0.

Definition remove_status_rule : rule :=
  Rule (seqs [L ","; ws; L "status: true"]) [TLit []] 0.

Definition count_block_rule : rule :=
  Rule (Group 1 (seqs [L "departmentId: true,"; ws; L "createdAt: true,";
                       ws; L "updatedAt: true,"]))
       [TRef 1; TLit nl;
        T "          _count: {"; TLit nl;
        T "            select: {"; TLit nl;
        T "              createdDocuments: true,"; TLit nl;
        T "              assignedDocuments: true"; TLit nl;
        T "            }"; TLit nl;
        T "          },"] 0.

Definition catch_return_rule : rule :=
  Rule (Group 1 (seqs [L "});"; ws; L "}"; ws; L "catch (error) {"; ws;
                       L "console.error('Error fetching users:', error);"; ws;
                       L "res.status(500).json({ message: 'Internal server error' });";
                       ws; L "}"; ws; L "};"]))
       [T "  } catch (error) {"; TLit nl;
        T "    console.error('Error fetching users:', error);"; TLit nl;
        T "    return res.status(500).json({ message: 'Internal server error' });";
        TLit nl; T "  }"; TLit nl; T "};"] 1.

Definition user_rules : list rule :=
  [import_rule; order_by_rule; user_created_at_rule; user_user_id_rule;
   zod_status_rule; status_active_rule; zod_errors_rule; remove_status_rule;
   count_block_rule; catch_return_rule].

Definition user_path : path := "backend/src/controllers/userController.ts".

Definition fix_user_controller : M unit :=
  let file_path := user_path in
  content <- read_text file_path ;;
  let content := apply_rules user_rules content in
  write_text file_path content ;;
  print ("Fixed " ++ file_path).

(** *** fix_search_controller *)

Definition insensitive_rule : rule :=
  Rule (L "mode: 'insensitive'") [T "mode: 'insensitive' as const"] 0.

Definition categories_rule : rule :=
  Rule (L "categories: {") [T "category: {"] 0.

Definition role_status_rule : rule :=
  Rule (seqs [L "role: true,"; ws; L "status: true,"]) [T "role: true,"] 0.

Definition department_rule : rule :=
  Rule (Group 1 (seqs [Plus Space; L "users: users.map(user => ({";
                       Plus (NoneOf (lit "}"));
                       L "department: user.department?.name"]))
       [TRef 1] 0.

Definition content_where_rule : rule :=
  Rule (L "{ content: { contains: query, mode: 'insensitive' as const } },")
       [TLit []] 0.

Definition search_rules : list rule :=
  [insensitive_rule; categories_rule; role_status_rule; status_active_rule;
   department_rule; content_where_rule].

Definition search_path : path := "backend/src/controllers/searchController.ts".

Definition fix_search_controller : M unit :=
  let file_path := search_path in
  content <- read_text file_path ;;
  let content := apply_rules search_rules content in
  write_text file_path content ;;
  print ("Fixed " ++ file_path).

(** *** fix_auth_controller *)

Definition rate_limit_rule : rule :=
  Rule (L "return res.status(429).json(response);")
       [T "res.status(429).json(response);"; TLit nl; T "      return;"] 1.

Definition auth_rules : list rule := [rate_limit_rule].

Definition auth_path : path := "backend/src/controllers/authController.ts".

Definition fix_auth_controller : M unit :=
  let file_path := auth_path in
  content <- read_text file_path ;;
  let content := apply_rules auth_rules content in
  write_text file_path content ;;
  print ("Fixed " ++ file_path).

(** *** fix_upload_middleware *)

Definition next_rule : rule :=
  Rule (Group 1 (seqs [L "next();"; ws; L "};"]))
       [T "return next();"; TLit nl; T "};"] 0.

Definition upload_rules : list rule := [next_rule].

Definition upload_path : path := "backend/src/middleware/upload.ts".

Definition fix_upload_middleware : M unit :=
  let file_path := upload_path in
  content <- read_text file_path ;;
  let content := apply_rules upload_rules content in
  write_text file_path content ;;
  print ("Fixed " ++ file_path).

(** *** The script body under [if __name__ == "__main__"] *)

Definition all_fixes_line : string :=
  String (ascii_of_N 10) "All fixes applied!".

Definition main : M unit :=
  fix_status_controller ;;
  fix_user_controller ;;
  fix_search_controller ;;
  fix_auth_controller ;;
  fix_upload_middleware ;;
  print all_fixes_line.

(** Every rewrite rule that [fix_errors.py] defines. *)
Definition all_rules : list rule :=
  status_rules ++ user_rules ++ search_rules ++ auth_rules ++ upload_rules.

End FixErrors.

(** ** fix_notifications.py *)

Module FixNotifications.
Import Text Re Fs.
Import FixErrors (L, T, nl, rule, Rule, pattern, repl, count, apply_rule).
Local Open Scope string_scope.
Local Open Scope script_scope.

Definition not_newline : cls := NoneOf [LF].
Definition not_comma_newline : cls := NoneOf (lit "," ++ [LF]).

(** The two double quotes that end the replacement template. *)
Definition empty_string_literal : str := [34; 34].

Definition notification_rule : rule :=
  Rule (seqs [Group 1 (Plus Space); L "recipientUserId: ";
              Group 2 (Plus not_comma_newline); L ","; Lit nl;
              Plus Space; L "title: "; Plus not_newline; L ","; Lit nl;
              Plus Space; L "message: "; Group 3 (Plus not_newline);
              L ","; Lit nl;
              Plus Space; L "type: "; Plus not_newline; L ","; Lit nl;
              Plus Space; L "relatedId: "; Group 4 (Plus not_newline)])
       [TRef 1; T "recipientUserId: "; TRef 2; T ","; TLit nl;
        TRef 1; T "message: "; TRef 3; T ","; TLit nl;
        TRef 1; T "messageAr: "; TRef 3;
        T ", // TODO: Add Arabic translation"; TLit nl;
        TRef 1; T "documentId: "; TRef 4; T ","; TLit nl;
        TRef 1; T "departmentId: currentUser.departmentId || ";
        TLit empty_string_literal] 0.

Definition fix_notifications (file_path : path) : M unit :=
  content <- read_text file_path ;;
  let content := apply_rule notification_rule content in
  write_text file_path content ;;
  print ("Fixed " ++ file_path).

(** The statements at module level. *)
Definition main : M unit :=
  fix_notifications FixErrors.status_path ;;
  fix_notifications FixErrors.user_path ;;
  print "All notifications fixed!".

End FixNotifications.

(** ** fix_user_controller.py: the line-indexed patcher *)

Module FixUserController.
Import Text Fs.
Local Open Scope string_scope.
Local Open Scope script_scope.

(** [if old_guard in line: line = line.replace(old, new)] and its variants:
    a rewrite of the current line under a condition. *)
Definition rewrite_if (cond : bool) (old new : string) (line : str) : str :=
  if cond then replace (lit old) (lit new) line else line.

(** [line = '    return ' + line.lstrip()] under a condition. *)
Definition return_if (cond : bool) (line : str) : str :=
  if cond then (lit "    return " ++ lstrip line)%list else line.

Definition has (needle : string) (line : str) : bool :=
  contains (lit needle) line.

(** [a <= i and i <= b] *)
Definition between (a b i : nat) : bool := Nat.leb a i && Nat.leb i b.

(** [lines[max(0, i-10):i+1]] *)
Definition window (lines : list str) (i : nat) : list str :=
  take (i + 1 - (i - 10)) (drop (i - 10) lines).

(** Source lines 17-31: the rewrites before the first [continue]. *)
Definition early_rules (i : nat) (line : str) : str :=
  let line := rewrite_if (Nat.eqb i 1 && has "Role, UserStatus" line)
                "Role, UserStatus" "UserRole" line in
  let line := rewrite_if (has "z.nativeEnum(Role)" line)
                "z.nativeEnum(Role)" "z.nativeEnum(UserRole)" line in
  let line := rewrite_if (has "z.nativeEnum(UserStatus)" line)
                "status: z.nativeEnum(UserStatus).optional()"
                "isActive: z.boolean().optional()" line in
  let line := rewrite_if (has "if (status) where.status = status;" line)
                "if (status) where.status = status;"
                "if (status) where.isActive = status === 'ACTIVE';" line in
  line.

(** The guard of source line 55: a substring test on the line and a
    membership test of the string ['activityLog'] in the LIST of the last
    lines. *)
Definition activity_guard (lines : list str) (i : nat) (line : str) : bool :=
  has "orderBy: { createdAt:" line
  && list_contains (lit "activityLog") (window lines i).

(** Source lines 54-70. *)
Definition middle_rules (lines : list str) (i : nat) (line : str) : str :=
  let line := rewrite_if (activity_guard lines i line)
                "orderBy: { createdAt: 'desc' }"
                "orderBy: { timestamp: 'desc' }" line in
  let line := rewrite_if (has "createdAt: true," line && between 195 230 i)
                "createdAt: true," "timestamp: true," line in
  let line := rewrite_if (has "userId: newUser.id," line)
                "userId: newUser.id," "recipientUserId: newUser.id," line in
  let line := rewrite_if (has "userId: updatedUser.id," line)
                "userId: updatedUser.id," "recipientUserId: updatedUser.id,"
                line in
  let line := rewrite_if (has "userId: existingUser.id," line)
                "userId: existingUser.id," "recipientUserId: existingUser.id,"
                line in
  let line := rewrite_if (has "status: 'ACTIVE'" line)
                "status: 'ACTIVE'" "isActive: true" line in
  line.

(** Source lines 78-85: the three rewrites inside [if i >= 456 and i <= 472]. *)
Definition delete_rules (line : str) : str :=
  let line := rewrite_if (has "status: true" line)
                "status: true" "isActive: true" line in
  let line := rewrite_if (has "status === 'INACTIVE'" line)
                "status === 'INACTIVE'" "!isActive" line in
  let line := rewrite_if (has "status: 'INACTIVE'" line)
                "status: 'INACTIVE'" "isActive: false" line in
  line.

(** Source lines 78-109. *)
Definition late_rules (i : nat) (line : str) : str :=
  let line := if between 456 472 i then delete_rules line else line in
  let line := rewrite_if (has "where: { status: 'ACTIVE' }" line)
                "where: { status: 'ACTIVE' }" "where: { isActive: true }"
                line in
  let line := rewrite_if (has "errors: error.errors" line)
                "errors: error.errors" "errors: error.issues" line in
  let line := rewrite_if (has "validatedData.status" line)
                "validatedData.status" "validatedData.isActive" line in
  let line := return_if (has "res.status(500).json({ message:" line
                         && negb (has "return" line)) line in
  let line := return_if (has "res.status(201).json" line && between 318 327 i
                         && negb (has "return" line)) line in
  let line := return_if (has "res.json({" line && between 430 433 i
                         && negb (has "return" line)) line in
  let line := return_if (has "res.json({ message:" line && between 488 492 i
                         && negb (has "return" line)) line in
  let line := return_if (has "res.json({ message:" line && between 545 549 i
                         && negb (has "return" line)) line in
  line.

(** What one iteration of the [while] loop does with [lines[i]]. *)
Inductive action :=
  | Append (line : str)   (* new_lines.append(line); i += 1 *)
  | SkipBlock.            (* the brace-depth skip of source lines 42-52 *)

Definition body (lines : list str) (i : nat) (line : str) : action :=
  let line := early_rules i line in
  if Nat.eqb i 69 && has "status: true," line then
    Append (replace (lit "status: true,") [] line)
  else if between 80 85 i && has "_count:" line then
    SkipBlock
  else
    let line := middle_rules lines i line in
    if (Nat.eqb i 287 || Nat.eqb i 383) && has "status: true," line then
      Append (replace (lit "status: true,") [] line)
    else
      Append (late_rules i line).

(** The inner loop of source lines 42-51, run on [lines[i:]] with the
    current [depth]: the number of lines it passes over.  [depth] goes up
    by one for a line that contains an opening brace and down by one for a
    line that contains a closing brace, whatever the number of braces. *)
Fixpoint skip_count (depth : Z) (rest : list str) : nat :=
  match rest with
  | [] => O
  | l :: rest' =>
      let depth := if has "{" l then (depth + 1)%Z else depth in
      if has "}" l then
        let depth := (depth - 1)%Z in
        if (depth =? 0)%Z then 1%nat else S (skip_count depth rest')
      else S (skip_count depth rest')
  end.

(** The outer [while i < len(lines)] loop; [None] stands for a run that
    needs more than [fuel] iterations. *)
Fixpoint loop (fuel : nat) (lines : list str) (i : nat) (new_lines : list str)
  : option (list str) :=
  match lines !! i with
  | None => Some new_lines
  | Some line =>
      match fuel with
      | O => None
      | S fuel' =>
          match body lines i line with
          | Append l => loop fuel' lines (S i) (new_lines ++ [l])
          | SkipBlock =>
              loop fuel' lines (i + skip_count 0 (drop i lines)) new_lines
          end
      end
  end.

(** [new_lines] at the end of the loop. *)
Definition patch_lines (lines : list str) : option (list str) :=
  loop (length lines) lines 0 [].

Definition run_loop (lines : list str) : M (list str) :=
  fun w =>
    match patch_lines lines with
    | Some new_lines => (Ok new_lines, w)
    | None => (Raise OutOfFuel, w)
    end.

Definition controller_path : path :=
  "backend/src/controllers/userController.ts".

Definition fix_user_controller : M unit :=
  let file_path := controller_path in
  content <- read_text file_path ;;
  let lines := splitlines content in
  new_lines <- run_loop lines ;;
  write_text file_path (join [LF] new_lines) ;;
  print ("Fixed " ++ file_path).

(** The script body. *)
Definition main : M unit :=
  fix_user_controller ;;
  print "User controller fixed!".

End FixUserController.

(** ** Notions used to state the properties *)

Module Notions.
Import Text.

(** Number of positions of [s] at which an occurrence of [p] starts. *)
Fixpoint occurrences (p s : str) : nat :=
  match s with
  | [] => if startswith p s then 1%nat else 0%nat
  | _ :: s' =>
      if startswith p s then S (occurrences p s') else occurrences p s'
  end.

(** The non-empty suffixes of [s], longest first. *)
Fixpoint tails (s : str) : list str :=
  match s with
  | [] => []
  | _ :: s' => s :: tails s'
  end.

(** One of the two strings is a prefix of the other. *)
Definition compatible (a b : str) : bool := startswith a b || startswith b a.

(** A literal pattern [p] and its replacement [new] cannot produce a new
    match: no proper suffix of [p] runs into [new] or holds it at its
    front, and [p] starts nowhere inside [new], not even partly. *)
Definition no_rematch (p new : str) : bool :=
  forallb (fun q => negb (compatible q new)) (tails (tl p))
  && forallb (fun r' => negb (compatible p r')) (tails new).

(** A rule whose pattern and replacement are plain text, applied without a
    limit. *)
Definition literal_rule (r : FixErrors.rule) : option (str * str) :=
  match FixErrors.pattern r, FixErrors.repl r, FixErrors.count r with
  | Re.Lit (a :: p), [Re.TLit new], O => Some (a :: p, new)
  | _, _, _ => None
  end.

Definition stable (r : FixErrors.rule) : bool :=
  match literal_rule r with
  | Some (p, new) => no_rematch p new
  | None => false
  end.

(** The rules of [fix_errors.py] that pass the test. *)
Definition stable_rules : list FixErrors.rule :=
  List.filter stable FixErrors.all_rules.



(** *** Sessions *)

(** The shape that the whole-text patchers share: read, transform,
    write back, report. *)
Definition patch_file (p : Fs.path) (f : str -> str) : Fs.M unit :=
  Fs.bind (Fs.read_text p) (fun content =>
  Fs.bind (Fs.write_text p (f content)) (fun _ =>
  Fs.print ("Fixed " ++ p)%string)).

(** Patchers run one after the other, then [k]. *)
Definition run_each (ts : list (Fs.path * (str -> str))) (k : Fs.M unit)
  : Fs.M unit :=
  foldr (fun t k => Fs.bind (patch_file t.1 t.2) (fun _ => k)) k ts.

(** The files that [fix_errors.py] patches, in the order of its calls. *)
Definition targets : list (Fs.path * (str -> str)) :=
  [(FixErrors.status_path, FixErrors.apply_rules FixErrors.status_rules);
   (FixErrors.user_path, FixErrors.apply_rules FixErrors.user_rules);
   (FixErrors.search_path, FixErrors.apply_rules FixErrors.search_rules);
   (FixErrors.auth_path, FixErrors.apply_rules FixErrors.auth_rules);
   (FixErrors.upload_path, FixErrors.apply_rules FixErrors.upload_rules)].

(** The files that [fix_notifications.py] patches. *)
Definition notification_targets : list (Fs.path * (str -> str)) :=
  [(FixErrors.status_path,
    FixErrors.apply_rule FixNotifications.notification_rule);
   (FixErrors.user_path,
    FixErrors.apply_rule FixNotifications.notification_rule)].

(** The file system with the file of [t] patched, if it is there. *)
Definition patched (fs : gmap Fs.path str) (t : Fs.path * (str -> str))
  : gmap Fs.path str :=
  match fs !! t.1 with
  | Some c => <[t.1 := t.2 c]> fs
  | None => fs
  end.

Definition fixed_line (t : Fs.path * (str -> str)) : string :=
  ("Fixed " ++ t.1)%string.

(** Interrupted after any number of its file operations [os], a run leaves
    the file [p] either as it was or with its complete new content. *)
Definition survives_interruption (fs : gmap Fs.path str)
    (os : list Fs.fs_op) (p : Fs.path) : Prop :=
  forall k,
    Fs.replay (take k os) fs !! p = fs !! p \/
    Fs.replay (take k os) fs !! p = Fs.replay os fs !! p.

(** The operations write some other file and rename it to [p]. *)
Definition writes_through_rename (os : list Fs.fs_op) (p : Fs.path) : Prop :=
  exists tmp data,
    tmp <> p /\ In (Fs.OpWrite tmp data) os /\ In (Fs.OpRename tmp p) os.

(** *** The line-indexed patcher *)

(** The line that the iteration at index [i] appends for [line] (the line
    itself where the iteration appends nothing). *)
Definition emit (lines : list str) (i : nat) (line : str) : str :=
  match FixUserController.body lines i line with
  | FixUserController.Append l => l
  | FixUserController.SkipBlock => line
  end.

(** What the iteration at input index [i] contributes to [new_lines]. *)
Definition emitted (lines : list str) (i : nat) : list str :=
  match lines !! i with
  | Some line =>
      match FixUserController.body lines i line with
      | FixUserController.Append l => [l]
      | FixUserController.SkipBlock => []
      end
  | None => []
  end.

(** The values that [i] takes at the head of the outer loop, in order. *)
Fixpoint visited (fuel : nat) (lines : list str) (i : nat) : list nat :=
  match lines !! i, fuel with
  | Some line, S fuel' =>
      i :: match FixUserController.body lines i line with
           | FixUserController.Append _ => visited fuel' lines (S i)
           | FixUserController.SkipBlock =>
               visited fuel' lines
                 (i + FixUserController.skip_count 0 (drop i lines))
           end
  | _, _ => []
  end.

(** No rule changes or drops any line of [lines]. *)
Definition untouched (lines : list str) : Prop :=
  forall i line,
    lines !! i = Some line ->
    FixUserController.body lines i line = FixUserController.Append line.

(** Opening and closing braces. *)
Definition lbrace : char := 123.
Definition rbrace : char := 125.

(** Total number of [c] in the lines. *)
Definition count_in_lines (c : char) (ls : list str) : nat :=
  foldr (fun l n => (count_char c l + n)%nat) O ls.

(** Opening braces in excess of closing braces. *)
Definition balance (ls : list str) : Z :=
  (Z.of_nat (count_in_lines lbrace ls) - Z.of_nat (count_in_lines rbrace ls))%Z.


(** A line without braces. *)
Definition brace_free (l : str) : bool :=
  negb (FixUserController.has "{" l) && negb (FixUserController.has "}" l).

(** A line that opens a group and closes none, and the converse. *)
Definition opens (l : str) : bool :=
  FixUserController.has "{" l && negb (FixUserController.has "}" l).
Definition closes (l : str) : bool :=
  negb (FixUserController.has "{" l) && FixUserController.has "}" l.

(** A character that is no line boundary, or is the newline. *)
Definition only_lf (c : char) : bool := negb (is_linebreak c) || (c =? LF).

(** *** Sample buffers *)

(** Eighty lines of a [select] clause. *)
Definition sample_pre : list str := replicate 80 (lit "        id: true,").

(** The six lines that [fix_errors.py] inserts after [updatedAt: true,]. *)
Definition sample_block : list str :=
  [lit "          _count: {";
   lit "            select: {";
   lit "              createdDocuments: true,";
   lit "              assignedDocuments: true";
   lit "            }";
   lit "          },"].

(** The same two nested groups with both opening braces on the first
    line. *)
Definition squeezed_block : list str :=
  [lit "          _count: { select: {";
   lit "              createdDocuments: true }";
   lit "          },"].

Definition sample_post : list str :=
  [lit "        }"; lit "      });"].

Definition status_line : str := lit "        status: true,".

(** A buffer in which the block sits at index 80 and [status: true,] at
    the indices 287 and 293. *)
Definition shift_sample : list str :=
  sample_pre ++ sample_block ++ replicate 201 (lit "x")
  ++ [status_line] ++ replicate 5 (lit "y") ++ [status_line].

(** A buffer with [status: true,] alone on line 70 (index 69). *)
Definition select_sample : list str :=
  replicate 69 (lit "        id: true,")
  ++ [status_line; lit "        role: true,"].

(** A query on the activity log: the table is named two lines above the
    [orderBy]. *)
Definition activity_sample : list str :=
  [lit "    const logs = await prisma.activityLog.findMany({";
   lit "      where: { userId: id },";
   lit "      orderBy: { createdAt: 'desc' },";
   lit "    });"].

End Notions.

(** ** Further notions *)

Module MoreNotions.
Import Text Notions.


(** The text with which every match of [r] begins, where the pattern fixes
    one. *)
Fixpoint leading_text (r : Re.regex) : option str :=
  match r with
  | Re.Lit l => Some l
  | Re.Seq a _ => leading_text a
  | Re.Group _ a => leading_text a
  | _ => None
  end.



(** [s.find(p)]: the index of the first occurrence of [p] in [s]. *)
Fixpoint find (p s : str) : option nat :=
  if startswith p s then Some O
  else match s with
       | [] => None
       | _ :: s' => S <$> find p s'
       end.

(** The five patchers of [fix_errors.py], each with its file and rules. *)
Definition patchers : list (Fs.M unit * Fs.path * list FixErrors.rule) :=
  [(FixErrors.fix_status_controller, FixErrors.status_path,
    FixErrors.status_rules);
   (FixErrors.fix_user_controller, FixErrors.user_path, FixErrors.user_rules);
   (FixErrors.fix_search_controller, FixErrors.search_path,
    FixErrors.search_rules);
   (FixErrors.fix_auth_controller, FixErrors.auth_path, FixErrors.auth_rules);
   (FixErrors.fix_upload_middleware, FixErrors.upload_path,
    FixErrors.upload_rules)].

(** The text that the [_count] rule of [fix_errors.py] puts after each
    match. *)
Definition count_block_text : str :=
  Re.expand (tl (FixErrors.repl FixErrors.count_block_rule)) [].

(** The text that the [catch] rule of [fix_errors.py] puts in the place of
    its match. *)
Definition catch_text : str :=
  Re.expand (FixErrors.repl FixErrors.catch_return_rule) [].

(** The texts that the guards of the loop body look for in a line. *)
Definition guard_texts : list string :=
  ["Role, UserStatus"; "z.nativeEnum(Role)"; "z.nativeEnum(UserStatus)";
   "if (status) where.status = status;"; "status: true,"; "_count:";
   "orderBy: { createdAt:"; "createdAt: true,"; "userId: newUser.id,";
   "userId: updatedUser.id,"; "userId: existingUser.id,";
   "status: 'ACTIVE'"; "status: true"; "status === 'INACTIVE'";
   "status: 'INACTIVE'"; "where: { status: 'ACTIVE' }";
   "errors: error.errors"; "validatedData.status";
   "res.status(500).json({ message:"; "res.status(201).json";
   "res.json({"; "res.json({ message:"]%string.

(** A line that holds none of them. *)
Definition quiet (line : str) : bool :=
  forallb (fun t => negb (FixUserController.has t line)) guard_texts.

(** The line as it stands when the loop reaches source line 88, the guard
    of the [getUserStats] rewrite; [line] is the line after source line
    31. *)
Definition where_guard_line (lines : list str) (i : nat) (line : str) : str :=
  let line := FixUserController.middle_rules lines i line in
  if FixUserController.between 456 472 i
  then FixUserController.delete_rules line else line.

(** A line without line boundaries. *)
Definition no_break (l : str) : bool :=
  forallb (fun c => negb (is_linebreak c)) l.

(** A line without a closing brace. *)
Definition no_close (l : str) : bool := negb (FixUserController.has "}" l).

(** Source lines 78-98: the rewrites of the loop body between the
    [continue] of source line 76 and the [return] insertions; [line] is the
    line after source line 70. *)
Definition text_rules (i : nat) (line : str) : str :=
  let line := if FixUserController.between 456 472 i
              then FixUserController.delete_rules line else line in
  let line := FixUserController.rewrite_if
                (FixUserController.has "where: { status: 'ACTIVE' }" line)
                "where: { status: 'ACTIVE' }" "where: { isActive: true }"
                line in
  let line := FixUserController.rewrite_if
                (FixUserController.has "errors: error.errors" line)
                "errors: error.errors" "errors: error.issues" line in
  let line := FixUserController.rewrite_if
                (FixUserController.has "validatedData.status" line)
                "validatedData.status" "validatedData.isActive" line in
  line.

(** [line = '    return ' + line.lstrip()] *)
Definition with_return (line : str) : str :=
  lit "    return " ++ lstrip line.

(** [y] is [x], or [x] holds no [return] and [y] is [x] behind one. *)
Definition returned (x y : str) : Prop :=
  y = x \/
  (FixUserController.has "return" x = false /\ y = with_return x).

End MoreNotions.

(** * Properties *)

(** ** Facts about text *)

Module TextFacts.
Import Text.

Lemma startswith_app (p t : str) : startswith p (p ++ t) = true.
Proof.
  induction p as [|a p IH]; simpl; [reflexivity|].
  rewrite N.eqb_refl. exact IH.
Qed.

Lemma startswith_split (p s : str) :
  startswith p s = true -> s = p ++ drop (length p) s.
Proof.
  revert s. induction p as [|a p IH]; intros s H; simpl in *.
  - reflexivity.
  - destruct s as [|b s]; [discriminate|].
    apply andb_prop in H as [Hab Hp]. apply N.eqb_eq in Hab. subst b.
    simpl. f_equal. apply IH, Hp.
Qed.

Lemma startswith_length (p s : str) :
  startswith p s = true -> (length p <= length s)%nat.
Proof.
  intros H. rewrite (startswith_split _ _ H), length_app. lia.
Qed.

Lemma str_eqb_eq (a b : str) : str_eqb a b = true <-> a = b.
Proof.
  revert b. induction a as [|x a IH]; intros [|y b]; simpl; split;
    try congruence; try discriminate.
  - intros H. apply andb_prop in H as [Hx Ha]. apply N.eqb_eq in Hx.
    apply IH in Ha. congruence.
  - intros [= -> ->]. rewrite N.eqb_refl. apply IH. reflexivity.
Qed.

(** Membership in a list of strings is equality with an element. *)
Lemma list_contains_In (x : str) (xs : list str) :
  list_contains x xs = true <-> In x xs.
Proof.
  induction xs as [|y ys IH]; simpl.
  - split; [discriminate|tauto].
  - rewrite orb_true_iff, str_eqb_eq, IH. tauto.
Qed.

Lemma contains_startswith (p s : str) :
  startswith p s = true -> contains p s = true.
Proof. intros H. destruct s; simpl; rewrite H; reflexivity. Qed.

Lemma contains_app (p a b : str) : contains p (a ++ p ++ b) = true.
Proof.
  induction a as [|c a IH].
  - cbn [app]. apply contains_startswith, startswith_app.
  - simpl. rewrite IH. apply orb_true_r.
Qed.

(** *** [replace] *)

Lemma replace_go_skip (old new : str) (k : nat) (s : str) :
  (k <= length s)%nat -> old <> [] ->
  replace_go old new k s = replace_go old new 0 (drop k s).
Proof.
  revert s. induction k as [|k IH]; intros s Hk Hold.
  - reflexivity.
  - destruct s as [|c s]; simpl in *; [lia|].
    apply IH; [lia|assumption].
Qed.

Lemma replace_nil (old new : str) : old <> [] -> replace old new [] = [].
Proof. destruct old; [congruence|reflexivity]. Qed.

(** The two equations of [replace] for a non-empty [old]. *)
Lemma replace_hit (old new s : str) :
  old <> [] -> startswith old s = true ->
  replace old new s = new ++ replace old new (drop (length old) s).
Proof.
  intros Hold H. unfold replace.
  pose proof (startswith_length _ _ H) as Hlen.
  destruct s as [|c s].
  - destruct old; [congruence|discriminate].
  - cbn [replace_go]. rewrite H.
    destruct old as [|a old]; [congruence|].
    cbn [length]. f_equal.
    rewrite replace_go_skip; [reflexivity| simpl in Hlen; lia | congruence].
Qed.

Lemma replace_miss (old new : str) (c : char) (s : str) :
  startswith old (c :: s) = false ->
  replace old new (c :: s) = c :: replace old new s.
Proof. intros H. unfold replace. cbn [replace_go]. rewrite H. reflexivity. Qed.


(** *** Counting one character *)

Lemma count_char_app (c : char) (a b : str) :
  count_char c (a ++ b) = (count_char c a + count_char c b)%nat.
Proof.
  induction a as [|d a IH]; simpl; [reflexivity|].
  destruct (d =? c); simpl; lia.
Qed.

Lemma count_char_lstrip (c : char) (s : str) :
  isspace c = false -> count_char c (lstrip s) = count_char c s.
Proof.
  intros Hc. induction s as [|d s IH]; simpl; [reflexivity|].
  destruct (isspace d) eqn:Hd; [|reflexivity].
  destruct (N.eqb_spec d c) as [->|_]; [congruence|exact IH].
Qed.

(** A replacement that carries as many [c] as the text it replaces leaves
    the number of [c] as it was. *)
Lemma count_char_replace (c : char) (old new : str) :
  old <> [] -> count_char c old = count_char c new ->
  forall s, count_char c (replace old new s) = count_char c s.
Proof.
  intros Hold Heq s.
  induction s as [s IH] using (induction_ltof1 _ (@length char)).
  unfold ltof in IH. destruct s as [|d s].
  - rewrite replace_nil by assumption. reflexivity.
  - destruct (startswith old (d :: s)) eqn:H.
    + rewrite replace_hit by assumption.
      pose proof (startswith_split _ _ H) as Hs.
      rewrite count_char_app, IH.
      * rewrite Hs at 2. rewrite count_char_app. lia.
      * rewrite length_drop. destruct old; [congruence|]. simpl. lia.
    + rewrite replace_miss by assumption. simpl.
      rewrite IH by (simpl; lia). reflexivity.
Qed.

End TextFacts.

(** ** Facts about substitution with a literal pattern *)

Module ReFacts.
Import Text Re TextFacts Notions.

Lemma match_at_lit (p s : str) :
  match_at (Lit p) s =
  if startswith p s then Some (length p, []) else None.
Proof.
  unfold match_at. cbn [m].
  destruct (startswith p s) eqn:H; [|reflexivity].
  pose proof (startswith_length _ _ H).
  rewrite length_drop. do 2 f_equal. lia.
Qed.

Lemma subn_go_skip (r : regex) (t : template) (count n k : nat) (s : str) :
  (k <= length s)%nat ->
  subn_go r t count n k s = subn_go r t count n 0 (drop k s).
Proof.
  revert s. induction k as [|k IH]; intros s Hk; [reflexivity|].
  destruct s as [|c s]; simpl in Hk; [lia|].
  cbn [subn_go drop]. apply IH. lia.
Qed.

Lemma drop_length_cons (p : str) (c : char) (s : str) :
  p <> [] -> drop (length p) (c :: s) = drop (length p - 1) s.
Proof.
  intros Hp. destruct p as [|a q]; [congruence|].
  cbn [length drop]. replace (S (length q) - 1)%nat with (length q) by lia.
  reflexivity.
Qed.

Section Literal.
Variables (p : str) (t : template).
Hypothesis p_nonempty : p <> [].

Lemma subn_lit_nil (n : nat) : subn_go (Lit p) t 0 n 0 [] = ([], n).
Proof using p_nonempty.
  cbn [subn_go]. rewrite match_at_lit.
  destruct p; [congruence|reflexivity].
Qed.

Lemma subn_lit_hit (n : nat) (s : str) :
  startswith p s = true ->
  subn_go (Lit p) t 0 n 0 s =
  let '(out, n') := subn_go (Lit p) t 0 (S n) 0 (drop (length p) s) in
  (expand t [] ++ out, n').
Proof using p_nonempty.
  intros H. pose proof (startswith_length _ _ H) as Hlen.
  destruct s as [|c s].
  - destruct p; [congruence|discriminate].
  - cbn [subn_go]. rewrite match_at_lit, H. cbn [may_replace Nat.eqb orb].
    destruct p as [|a q]; [congruence|]. cbn [length drop].
    rewrite subn_go_skip by (simpl in Hlen; lia). reflexivity.
Qed.

Lemma subn_lit_miss (n : nat) (c : char) (s : str) :
  startswith p (c :: s) = false ->
  subn_go (Lit p) t 0 n 0 (c :: s) =
  let '(out, n') := subn_go (Lit p) t 0 n 0 s in (c :: out, n').
Proof.
  intros H. cbn [subn_go]. rewrite match_at_lit, H. reflexivity.
Qed.


Lemma occurrences_zero (s : str) :
  occurrences p s = 0%nat -> contains p s = false.
Proof.
  induction s as [|c s IH]; cbn [occurrences contains]; intros H.
  - destruct (startswith p []); [discriminate|reflexivity].
  - destruct (startswith p (c :: s)); [discriminate|]. auto.
Qed.

Lemma contains_drop (k : nat) (s : str) :
  contains p s = false -> contains p (drop k s) = false.
Proof.
  revert s. induction k as [|k IH]; intros s H; [exact H|].
  destruct s as [|c s]; [exact H|].
  cbn [drop]. apply IH. cbn [contains] in H.
  apply orb_false_elim in H. tauto.
Qed.

(** Nothing to replace: the buffer comes back and the count stays. *)
Lemma subn_lit_absent (n : nat) (s : str) :
  contains p s = false -> subn_go (Lit p) t 0 n 0 s = (s, n).
Proof using p_nonempty.
  induction s as [|c s IH]; intros H.
  - apply subn_lit_nil.
  - cbn [contains] in H. apply orb_false_elim in H as [H1 H2].
    rewrite subn_lit_miss, IH by assumption. reflexivity.
Qed.

(** One occurrence: it is replaced, and it is counted once. *)
Lemma subn_lit_once (n : nat) (s : str) :
  occurrences p s = 1%nat ->
  exists pre post,
    s = pre ++ p ++ post /\
    subn_go (Lit p) t 0 n 0 s = (pre ++ expand t [] ++ post, S n).
Proof using p_nonempty.
  induction s as [|c s IH]; cbn [occurrences]; intros H.
  - destruct p; [congruence|discriminate].
  - destruct (startswith p (c :: s)) eqn:Hs.
    + injection H as H. apply occurrences_zero in H.
      exists [], (drop (length p) (c :: s)). split.
      * apply startswith_split, Hs.
      * rewrite subn_lit_hit by assumption.
        rewrite subn_lit_absent; [reflexivity|].
        rewrite drop_length_cons by assumption.
        apply contains_drop, H.
    + destruct (IH H) as (pre & post & -> & E).
      exists (c :: pre), post. split; [reflexivity|].
      rewrite subn_lit_miss, E by assumption. reflexivity.
Qed.

End Literal.

End ReFacts.

(** ** Literal rules that cannot match their own output *)

Module Stability.
Import Text Re TextFacts Notions ReFacts FixErrors.

Lemma startswith_app_split (q a b : str) :
  startswith q (a ++ b) = true ->
  startswith q a = true \/ startswith a q = true.
Proof.
  revert a. induction q as [|d q IH]; intros a H.
  - left. reflexivity.
  - destruct a as [|c a]; [right; reflexivity|].
    cbn [app startswith] in *. apply andb_prop in H as [Hd Hq].
    apply N.eqb_eq in Hd. subst c. rewrite N.eqb_refl. cbn [andb].
    apply IH, Hq.
Qed.

Lemma tails_closed (d : char) (q s : str) :
  In (d :: q) (tails s) -> q = [] \/ In q (tails s).
Proof.
  induction s as [|c s IH]; cbn [tails]; intros H; [destruct H|].
  destruct H as [H|H].
  - injection H as -> ->. destruct q as [|e q]; [left; reflexivity|].
    right. right. destruct q; left; reflexivity.
  - destruct (IH H) as [->|H']; [left; reflexivity|right; right; exact H'].
Qed.

Lemma startswith_cons (p : str) (c : char) (t : str) :
  p <> [] ->
  startswith p (c :: t) =
  match p with a :: _ => a =? c | [] => true end && startswith (tl p) t.
Proof. intros Hp. destruct p; [congruence|reflexivity]. Qed.

Lemma tails_self (s : str) : s <> [] -> In s (tails s).
Proof. destruct s; [congruence|left; reflexivity]. Qed.

Section NoRematch.
Variables p new : str.
Hypothesis p_nonempty : p <> [].
Hypothesis ok : no_rematch p new = true.

Lemma suffix_ok (q : str) : In q (tails (tl p)) -> compatible q new = false.
Proof using ok.
  intros Hq. unfold no_rematch in ok. apply andb_prop in ok as [H _].
  rewrite forallb_forall in H. apply negb_true_iff, H, Hq.
Qed.

Lemma inside_ok (r' : str) : In r' (tails new) -> compatible p r' = false.
Proof using ok.
  intros Hr. unfold no_rematch in ok. apply andb_prop in ok as [_ H].
  rewrite forallb_forall in H. apply negb_true_iff, H, Hr.
Qed.

(** What the output starts with, past the first character of a would-be
    match, the input started with too. *)
Lemma prefix_reflected (s q : str) :
  q = [] \/ In q (tails (tl p)) ->
  startswith q (replace p new s) = true -> startswith q s = true.
Proof using p_nonempty ok.
  revert q. induction s as [|c s IH]; intros q Hq H.
  - rewrite replace_nil in H by assumption. exact H.
  - destruct q as [|d q]; [reflexivity|].
    destruct Hq as [Hq|Hq]; [discriminate|].
    destruct (startswith p (c :: s)) eqn:Hp.
    + rewrite replace_hit in H by assumption.
      apply startswith_app_split in H.
      pose proof (suffix_ok _ Hq) as Hc. unfold compatible in Hc.
      apply orb_false_elim in Hc as [Hc1 Hc2].
      destruct H; congruence.
    + rewrite replace_miss in H by assumption.
      cbn [startswith] in *. apply andb_prop in H as [Hd H].
      rewrite Hd. cbn [andb].
      apply IH; [|exact H]. eapply tails_closed, Hq.
Qed.

Lemma no_match_across (out : str) :
  forall r', (forall x, In x (tails r') -> In x (tails new)) ->
  contains p out = false -> contains p (r' ++ out) = false.
Proof using ok.
  induction r' as [|a r' IH]; intros Hsub Hout; [exact Hout|].
  cbn [app contains]. apply orb_false_intro.
  - destruct (startswith p (a :: r' ++ out)) eqn:H; [|reflexivity].
    change (a :: r' ++ out) with ((a :: r') ++ out) in H.
    apply startswith_app_split in H.
    pose proof (inside_ok (a :: r') (Hsub _ (or_introl eq_refl))) as Hc.
    unfold compatible in Hc. apply orb_false_elim in Hc as [Hc1 Hc2].
    destruct H; congruence.
  - apply IH; [|exact Hout]. intros x Hx. apply Hsub. right. exact Hx.
Qed.

(** The output holds no occurrence of the pattern. *)
Lemma replace_leaves_none (s : str) :
  contains p (replace p new s) = false.
Proof using p_nonempty ok.
  induction s as [s IH] using (induction_ltof1 _ (@length char)).
  unfold ltof in IH. destruct s as [|c s].
  - rewrite replace_nil by assumption. destruct p; [congruence|reflexivity].
  - destruct (startswith p (c :: s)) eqn:Hp.
    + rewrite replace_hit by assumption.
      apply no_match_across; [auto|].
      apply IH. rewrite length_drop. destruct p; [congruence|simpl; lia].
    + rewrite replace_miss by assumption. cbn [contains].
      apply orb_false_intro; [|apply IH; simpl; lia].
      destruct (startswith p (c :: replace p new s)) eqn:H; [|reflexivity].
      rewrite startswith_cons in H, Hp by assumption.
      apply andb_prop in H as [Ha H]. rewrite Ha in Hp. cbn [andb] in Hp.
      apply prefix_reflected in H; [congruence|].
      destruct (tl p) eqn:E; [left; reflexivity|].
      right. left. reflexivity.
Qed.

End NoRematch.



End Stability.

(** * The claims about the whole-text rules *)

Module RegexClaims.
Import Text Re TextFacts Notions ReFacts Stability FixErrors.
Local Open Scope string_scope.

(** C7, amended.  In a buffer with exactly one occurrence of
    [orderBy: { createdAt: 'desc' }], the first substitution of
    [fix_status_controller] puts [orderBy: { timestamp: 'desc' }] in its
    place and keeps the text before and after it; the substitution makes
    exactly one replacement, the number that [re.subn] gives for the same
    arguments.  The script calls [re.sub] and keeps no such number. *)
Theorem order_by_single_occurrence (buffer : str) :
  occurrences (lit "orderBy: { createdAt: 'desc' }") buffer = 1%nat ->
  exists pre post,
    buffer = (pre ++ lit "orderBy: { createdAt: 'desc' }" ++ post)%list /\
    apply_rule order_by_rule buffer =
      (pre ++ lit "orderBy: { timestamp: 'desc' }" ++ post)%list /\
    subn (pattern order_by_rule) (repl order_by_rule) buffer
         (count order_by_rule) =
      ((pre ++ lit "orderBy: { timestamp: 'desc' }" ++ post)%list, 1%nat).
Proof.
  intros H.
  assert (Hne : lit "orderBy: { createdAt: 'desc' }" <> []) by discriminate.
  destruct (subn_lit_once _ (repl order_by_rule) Hne 0 buffer H)
    as (pre & post & Hb & E).
  exists pre, post.
  assert (E' : subn (pattern order_by_rule) (repl order_by_rule) buffer
                 (count order_by_rule) =
               ((pre ++ lit "orderBy: { timestamp: 'desc' }" ++ post)%list,
                1%nat)).
  { unfold subn. change (pattern order_by_rule)
      with (Lit (lit "orderBy: { createdAt: 'desc' }")).
    change (count order_by_rule) with 0%nat. rewrite E.
    change (expand (repl order_by_rule) [])
      with ((lit "orderBy: { timestamp: 'desc' }" ++ [])%list).
    rewrite app_nil_r. reflexivity. }
  split; [exact Hb|]. split; [|exact E'].
  unfold apply_rule, sub. rewrite E'. reflexivity.
Qed.

Lemma order_by_single_occurrence_witness :
  exists pre post,
    lit "    orderBy: { createdAt: 'desc' }," =
      (pre ++ lit "orderBy: { createdAt: 'desc' }" ++ post)%list /\
    apply_rule order_by_rule (lit "    orderBy: { createdAt: 'desc' },") =
      (pre ++ lit "orderBy: { timestamp: 'desc' }" ++ post)%list /\
    subn (pattern order_by_rule) (repl order_by_rule)
         (lit "    orderBy: { createdAt: 'desc' },") (count order_by_rule) =
      ((pre ++ lit "orderBy: { timestamp: 'desc' }" ++ post)%list, 1%nat).
Proof.
  apply (order_by_single_occurrence (lit "    orderBy: { createdAt: 'desc' },")).
  vm_compute. reflexivity.
Defined.




(** The rules that pass: the two [orderBy] substitutions, the [select]
    and [assignee] rules of the status controller, the import, Zod-status
    and two [status: 'ACTIVE'] rules, and [categories]. *)
Lemma stable_rules_list :
  stable_rules =
  [order_by_rule; status_select_rule; assignee_rule; import_rule;
   order_by_rule; zod_status_rule; status_active_rule; categories_rule;
   status_active_rule].
Proof. vm_compute. reflexivity. Qed.

End RegexClaims.

(** ** Facts about the scripts as computations *)

Module FsFacts.
Import Text Fs Notions.

Lemma bind_ok {A B} (c : M A) (f : A -> M B) (w w' : world) (a : A) :
  c w = (Ok a, w') -> bind c f w = f a w'.
Proof. intros H. unfold bind. rewrite H. reflexivity. Qed.

Lemma bind_raise {A B} (c : M A) (f : A -> M B) (w w' : world) (e : exn) :
  c w = (Raise e, w') -> bind c f w = (Raise e, w').
Proof. intros H. unfold bind. rewrite H. reflexivity. Qed.

Lemma write_text_run (p : path) (data : str) (w : world) :
  write_text p data w =
  (Ok tt, World (<[p := data]> (files w))
                (ops w ++ [OpTruncate p; OpWrite p data]) (stdout w)).
Proof.
  unfold write_text, bind, do_op. cbn [files ops stdout apply_op].
  rewrite lookup_insert_eq, insert_insert_eq. cbn [default app].
  rewrite <- app_assoc. reflexivity.
Qed.

(** A patcher on a file that is there. *)
Lemma patch_file_ok (p : path) (f : str -> str) (w : world) (c : str) :
  files w !! p = Some c ->
  patch_file p f w =
  (Ok tt, World (<[p := f c]> (files w))
                (ops w ++ [OpRead p; OpTruncate p; OpWrite p (f c)])
                (stdout w ++ [("Fixed " ++ p)%string])).
Proof.
  intros H. unfold patch_file.
  erewrite bind_ok; [|unfold read_text; rewrite H; reflexivity].
  erewrite bind_ok; [|apply write_text_run].
  unfold print. cbn [files ops stdout]. rewrite <- app_assoc. reflexivity.
Qed.

(** A patcher on a file that is missing: the exception, and nothing else. *)
Lemma patch_file_missing (p : path) (f : str -> str) (w : world) :
  files w !! p = None ->
  patch_file p f w = (Raise (FileNotFoundError p), w).
Proof.
  intros H. unfold patch_file.
  erewrite bind_raise; [reflexivity|]. unfold read_text. rewrite H.
  reflexivity.
Qed.

Lemma patched_lookup_other (fs : gmap path str) (t : path * (str -> str))
    (q : path) :
  q <> t.1 -> patched fs t !! q = fs !! q.
Proof.
  intros Hq. unfold patched. destruct (fs !! t.1); [|reflexivity].
  apply lookup_insert_ne. congruence.
Qed.

Lemma patched_is_Some (fs : gmap path str) (t : path * (str -> str))
    (q : path) :
  is_Some (patched fs t !! q) <-> is_Some (fs !! q).
Proof.
  unfold patched. destruct (fs !! t.1) eqn:E; [|reflexivity].
  destruct (decide (t.1 = q)) as [<-|Hne].
  - rewrite lookup_insert_eq, E. split; eauto.
  - rewrite lookup_insert_ne by assumption. reflexivity.
Qed.

Lemma foldl_patched_other (ts : list (path * (str -> str)))
    (fs : gmap path str) (q : path) :
  ~ In q (map fst ts) -> foldl patched fs ts !! q = fs !! q.
Proof.
  revert fs. induction ts as [|t ts IH]; intros fs Hq; [reflexivity|].
  cbn [foldl]. cbn [map In] in Hq.
  rewrite IH by tauto. apply patched_lookup_other. intros ->. tauto.
Qed.

(** A run of patchers up to the first missing file: the files before it
    are patched and reported, then the exception ends the run; [k] and the
    patchers after the missing file are not reached. *)
Lemma run_each_missing (before : list (path * (str -> str)))
    (t : path * (str -> str)) (after : list (path * (str -> str)))
    (k : M unit) (w : world) :
  (forall q, In q before -> is_Some (files w !! q.1)) ->
  files w !! t.1 = None ->
  let r := run_each (before ++ t :: after) k w in
  r.1 = Raise (FileNotFoundError t.1) /\
  files r.2 = foldl patched (files w) before /\
  stdout r.2 = stdout w ++ map fixed_line before.
Proof.
  revert w. induction before as [|b before IH]; intros w Hbefore Hmiss.
  - cbn [app run_each foldr foldl map].
    erewrite bind_raise by (apply patch_file_missing, Hmiss).
    rewrite app_nil_r. auto.
  - destruct (Hbefore b (or_introl eq_refl)) as [c Hc].
    cbn [app run_each foldr foldl map].
    erewrite bind_ok by (apply patch_file_ok, Hc).
    set (w1 := World _ _ _).
    assert (Hf : files w1 = patched (files w) b).
    { unfold patched. rewrite Hc. reflexivity. }
    destruct (IH w1) as (H1 & H2 & H3).
    + intros q Hq. rewrite Hf. apply patched_is_Some, Hbefore. right. exact Hq.
    + rewrite Hf, patched_lookup_other; [exact Hmiss|].
      intros E. rewrite E, Hc in Hmiss. discriminate.
    + fold (run_each (before ++ t :: after) k) in *.
      split; [exact H1|]. split.
      * rewrite H2, Hf. reflexivity.
      * rewrite H3. subst w1. cbn [stdout]. rewrite <- app_assoc. reflexivity.
Qed.

(** A run of patchers on files that are all there. *)
Lemma run_each_ok (ts : list (path * (str -> str))) (k : M unit) (w : world) :
  (forall q, In q ts -> is_Some (files w !! q.1)) ->
  exists w', run_each ts k w = k w' /\
    files w' = foldl patched (files w) ts /\
    stdout w' = stdout w ++ map fixed_line ts.
Proof.
  revert w. induction ts as [|b ts IH]; intros w Hts.
  - exists w. cbn. rewrite app_nil_r. auto.
  - destruct (Hts b (or_introl eq_refl)) as [c Hc].
    cbn [run_each foldr foldl map].
    erewrite bind_ok by (apply patch_file_ok, Hc).
    set (w1 := World _ _ _).
    assert (Hf : files w1 = patched (files w) b).
    { unfold patched. rewrite Hc. reflexivity. }
    destruct (IH w1) as (w' & H1 & H2 & H3).
    + intros q Hq. rewrite Hf. apply patched_is_Some, Hts. right. exact Hq.
    + exists w'. split; [exact H1|]. split.
      * rewrite H2, Hf. reflexivity.
      * rewrite H3. subst w1. cbn [stdout]. rewrite <- app_assoc. reflexivity.
Qed.

Lemma main_run_each :
  FixErrors.main = run_each targets (print FixErrors.all_fixes_line).
Proof. reflexivity. Qed.

Lemma notifications_main_run_each :
  FixNotifications.main =
  run_each notification_targets (print "All notifications fixed!").
Proof. reflexivity. Qed.

End FsFacts.

(** * The claims about a run over several files *)

Module SessionClaims.
Import Text Re Fs Notions FsFacts FixErrors.
Local Open Scope string_scope.

Lemma targets_distinct : NoDup (map fst targets).
Proof.
  apply (bool_decide_unpack _). vm_compute. reflexivity.
Qed.

(** C2, as stated, fails: with [statusController.ts] missing,
    [userController.ts] is there and would be changed by its patcher, but
    the run leaves it as it is. *)
Lemma isolation_fails :
  ~ (forall fs q f c,
       In (q, f) targets -> fs !! q = Some c ->
       files (main (init fs)).2 !! q = Some (f c)).
Proof.
  intros H.
  specialize (H {[user_path := lit "status: 'ACTIVE'"]} user_path
                (apply_rules user_rules) (lit "status: 'ACTIVE'")).
  assert (Hin : In (user_path, apply_rules user_rules) targets)
    by (right; left; reflexivity).
  specialize (H Hin (lookup_singleton_eq _ _)).
  vm_compute in H. discriminate.
Qed.

(** C2, amended.  When the file of one patcher of [fix_errors.py] is
    missing and the files of the patchers before it are there, the run
    ends with the [FileNotFoundError] of that file and exit status 1: the
    files before it are patched and reported, the files after it are left
    as they were, and the closing line is not printed. *)
Theorem run_stops_at_first_missing_file (fs : gmap path str)
    (before : list (path * (str -> str))) (t : path * (str -> str))
    (after : list (path * (str -> str))) :
  targets = (before ++ t :: after)%list ->
  (forall q, In q before -> is_Some (fs !! q.1)) ->
  fs !! t.1 = None ->
  let r := main (init fs) in
  r.1 = Raise (FileNotFoundError t.1) /\
  exit_status r.1 = 1%Z /\
  files r.2 = foldl patched fs before /\
  stdout r.2 = map fixed_line before /\
  (forall q, In q after -> files r.2 !! q.1 = fs !! q.1).
Proof.
  intros Hts Hbefore Hmiss r. subst r.
  rewrite main_run_each, Hts.
  destruct (run_each_missing before t after (print all_fixes_line) (init fs)
              Hbefore Hmiss) as (H1 & H2 & H3).
  split; [exact H1|]. split; [rewrite H1; reflexivity|].
  split; [exact H2|]. split; [exact H3|].
  intros q Hq. rewrite H2. apply foldl_patched_other.
  pose proof targets_distinct as Hnd. rewrite Hts, map_app in Hnd.
  apply NoDup_app in Hnd as (_ & Hdisj & _).
  intros Hin. apply (Hdisj q.1).
  - apply list_elem_of_In, Hin.
  - apply list_elem_of_In. right. apply in_map, Hq.
Qed.

Lemma run_stops_at_first_missing_file_witness :
  let fs := {[status_path := lit "assignee.status !== 'ACTIVE'"]} in
  let r := main (init fs) in
  r.1 = Raise (FileNotFoundError user_path) /\
  exit_status r.1 = 1%Z /\
  files r.2 = foldl patched fs (take 1 targets) /\
  stdout r.2 = map fixed_line (take 1 targets) /\
  (forall q, In q (drop 2 targets) -> files r.2 !! q.1 = fs !! q.1).
Proof.
  intros fs.
  apply (run_stops_at_first_missing_file fs (take 1 targets)
           (user_path, apply_rules user_rules) (drop 2 targets)).
  - reflexivity.
  - intros q [<-|[]]. vm_compute. eauto.
  - vm_compute. reflexivity.
Defined.

(** The same for [fix_notifications.py]. *)
Lemma notifications_stop_at_first_missing_file (fs : gmap path str) (c : str) :
  fs !! status_path = Some c -> fs !! user_path = None ->
  let r := FixNotifications.main (init fs) in
  r.1 = Raise (FileNotFoundError user_path) /\
  files r.2 =
    <[status_path := apply_rule FixNotifications.notification_rule c]> fs /\
  stdout r.2 = ["Fixed " ++ status_path].
Proof.
  intros Hc Hmiss r. subst r. rewrite notifications_main_run_each.
  change notification_targets
    with ([(status_path, apply_rule FixNotifications.notification_rule)]
          ++ (user_path, apply_rule FixNotifications.notification_rule)
             :: [])%list.
  destruct (run_each_missing
              [(status_path, apply_rule FixNotifications.notification_rule)]
              (user_path, apply_rule FixNotifications.notification_rule) []
              (print "All notifications fixed!") (init fs))
    as (H1 & H2 & H3).
  - intros q [<-|[]]. cbn. rewrite Hc. eauto.
  - exact Hmiss.
  - split; [exact H1|]. split; [|exact H3].
    rewrite H2. cbn [foldl]. unfold patched. cbn [fst snd init files].
    rewrite Hc. reflexivity.
Qed.

(** With every file there, the run reaches its end with exit status 0. *)
Lemma run_completes (fs : gmap path str) :
  (forall q, In q targets -> is_Some (fs !! q.1)) ->
  let r := main (init fs) in
  r.1 = Ok tt /\ exit_status r.1 = 0%Z /\
  files r.2 = foldl patched fs targets /\
  stdout r.2 = (map fixed_line targets ++ [all_fixes_line])%list.
Proof.
  intros H r. subst r. rewrite main_run_each.
  destruct (run_each_ok targets (print all_fixes_line) (init fs) H)
    as (w' & -> & H2 & H3).
  unfold print. cbn [fst snd files stdout]. rewrite H2, H3. auto.
Qed.

(** C8.  What a whole-text patcher writes is a function of the text it
    read and of nothing else: two runs that start from any two worlds in
    which the file holds the same text write the same text, namely its
    rules applied in order to that text.  This holds for
    [fix_status_controller] and for [fix_notifications]. *)
Theorem whole_text_patch_deterministic (w1 w2 : world) (c : str) :
  files w1 !! status_path = Some c ->
  files w2 !! status_path = Some c ->
  let out1 := files (fix_status_controller w1).2 !! status_path in
  let out2 := files (fix_status_controller w2).2 !! status_path in
  let n1 := files (FixNotifications.fix_notifications status_path w1).2
              !! status_path in
  let n2 := files (FixNotifications.fix_notifications status_path w2).2
              !! status_path in
  out1 = out2 /\ out1 = Some (apply_rules status_rules c) /\
  n1 = n2 /\ n1 = Some (apply_rule FixNotifications.notification_rule c).
Proof.
  intros H1 H2 out1 out2 n1 n2. subst out1 out2 n1 n2.
  change fix_status_controller
    with (patch_file status_path (apply_rules status_rules)).
  change (FixNotifications.fix_notifications status_path)
    with (patch_file status_path
            (apply_rule FixNotifications.notification_rule)).
  rewrite !(patch_file_ok _ _ w1 c H1), !(patch_file_ok _ _ w2 c H2).
  cbn [snd files]. rewrite !lookup_insert_eq. auto.
Qed.

Lemma whole_text_patch_deterministic_witness :
  let c := lit "orderBy: { createdAt: 'desc' }" in
  let w1 := init {[status_path := c]} in
  let w2 := World {[status_path := c; user_path := lit "x"]}
                  [OpRead user_path] ["earlier output"] in
  let out1 := files (fix_status_controller w1).2 !! status_path in
  let out2 := files (fix_status_controller w2).2 !! status_path in
  let n1 := files (FixNotifications.fix_notifications status_path w1).2
              !! status_path in
  let n2 := files (FixNotifications.fix_notifications status_path w2).2
              !! status_path in
  out1 = out2 /\ out1 = Some (apply_rules status_rules c) /\
  n1 = n2 /\ n1 = Some (apply_rule FixNotifications.notification_rule c).
Proof.
  intros c w1 w2.
  apply (whole_text_patch_deterministic w1 w2 c); vm_compute; reflexivity.
Defined.

(** C7, as stated, fails: no application count is recorded.  The script
    calls [re.sub], which gives the new text and nothing else, and the
    patcher keeps nothing but that text.  Run on a file with one occurrence
    of [orderBy: { createdAt: 'desc' }] (one replacement) and on a file
    that holds [orderBy: { timestamp: 'desc' }] already (no replacement),
    [fix_status_controller] returns the same value and leaves the same
    files, the same file operations and the same output; so nothing that
    the run returns or leaves behind tells how often the rule was
    applied. *)
Lemma application_count_not_recorded :
  let old := lit "orderBy: { createdAt: 'desc' }" in
  let new := lit "orderBy: { timestamp: 'desc' }" in
  let applications (c : str) :=
    snd (subn (pattern order_by_rule) (repl order_by_rule) c
              (count order_by_rule)) in
  occurrences old old = 1%nat /\
  applications old = 1%nat /\
  applications new = 0%nat /\
  fix_status_controller (init {[status_path := old]}) =
  fix_status_controller (init {[status_path := new]}) /\
  ~ (exists recorded : result unit * world -> nat,
       forall c, recorded (fix_status_controller (init {[status_path := c]}))
                 = applications c).
Proof.
  intros old new applications.
  assert (H1 : applications old = 1%nat) by (vm_compute; reflexivity).
  assert (H0 : applications new = 0%nat) by (vm_compute; reflexivity).
  assert (E : fix_status_controller (init {[status_path := old]}) =
              fix_status_controller (init {[status_path := new]})).
  { change fix_status_controller
      with (patch_file status_path (apply_rules status_rules)).
    rewrite (patch_file_ok _ _ (init {[status_path := old]}) old)
      by apply lookup_singleton_eq.
    rewrite (patch_file_ok _ _ (init {[status_path := new]}) new)
      by apply lookup_singleton_eq.
    cbn [init files ops stdout]. rewrite !insert_singleton_eq.
    assert (Eo : apply_rules status_rules old = apply_rules status_rules new)
      by (vm_compute; reflexivity).
    rewrite Eo. reflexivity. }
  split; [vm_compute; reflexivity|]. split; [exact H1|].
  split; [exact H0|]. split; [exact E|].
  intros [recorded H].
  pose proof (H old) as Ho. pose proof (H new) as Hn.
  rewrite E, Hn, H0 in Ho. rewrite H1 in Ho. discriminate.
Qed.

End SessionClaims.

(** ** Facts about the line-indexed loop *)

Module LineFacts.
Import Text Fs Notions TextFacts FixUserController.

Lemma skip_count_pos (d : Z) (rest : list str) :
  rest <> [] -> (1 <= skip_count d rest)%nat.
Proof.
  destruct rest as [|l rest]; [congruence|]. intros _. cbn [skip_count].
  destruct (has "{" l), (has "}" l); cbv zeta;
    try destruct (_ =? 0)%Z; lia.
Qed.

Lemma skip_count_le (d : Z) (rest : list str) :
  (skip_count d rest <= length rest)%nat.
Proof.
  revert d. induction rest as [|l rest IH]; intros d; cbn [skip_count length].
  - lia.
  - destruct (has "{" l), (has "}" l); cbv zeta;
      try destruct (_ =? 0)%Z;
      try match goal with
          | |- context [skip_count ?x rest] => specialize (IH x)
          end; lia.
Qed.

Lemma loop_end (fuel : nat) (lines : list str) (i : nat) (acc : list str) :
  lines !! i = None -> loop fuel lines i acc = Some acc.
Proof. intros H. destruct fuel; cbn [loop]; rewrite H; reflexivity. Qed.

Lemma loop_step_append (fuel : nat) (lines : list str) (i : nat)
    (acc : list str) (l l' : str) :
  lines !! i = Some l -> body lines i l = Append l' ->
  loop (S fuel) lines i acc = loop fuel lines (S i) (acc ++ [l']).
Proof. intros H B. cbn [loop]. rewrite H, B. reflexivity. Qed.

Lemma loop_step_skip (fuel : nat) (lines : list str) (i : nat)
    (acc : list str) (l : str) :
  lines !! i = Some l -> body lines i l = SkipBlock ->
  loop (S fuel) lines i acc =
  loop fuel lines (i + skip_count 0 (drop i lines)) acc.
Proof. intros H B. cbn [loop]. rewrite H, B. reflexivity. Qed.

Lemma emit_append (lines : list str) (i : nat) (l : str) :
  body lines i l <> SkipBlock -> body lines i l = Append (emit lines i l).
Proof. unfold emit. destruct (body lines i l); congruence. Qed.

(** A stretch of lines on none of which the block rule fires: each is
    appended, rewritten by the rules evaluated at its own input index. *)
Lemma loop_append_run (lines seg : list str) :
  forall (i : nat) (acc : list str) (fuel : nat),
    (forall j l, seg !! j = Some l ->
       lines !! (i + j)%nat = Some l /\ body lines (i + j) l <> SkipBlock) ->
    loop (length seg + fuel) lines i acc =
    loop fuel lines (i + length seg)
         (acc ++ imap (fun j l => emit lines (i + j) l) seg).
Proof.
  induction seg as [|l seg IH]; intros i acc fuel H.
  - cbn [length imap]. rewrite Nat.add_0_r, app_nil_r. reflexivity.
  - destruct (H O l eq_refl) as [Hl Hb]. rewrite Nat.add_0_r in Hl, Hb.
    cbn [length Nat.add].
    rewrite (loop_step_append _ _ _ _ _ _ Hl (emit_append _ _ _ Hb)).
    rewrite IH.
    + cbn [imap]. rewrite Nat.add_0_r, <- app_assoc. cbn [app].
      replace (S i + length seg)%nat with (i + S (length seg))%nat by lia.
      do 3 f_equal. apply imap_ext. intros j x _. cbn.
      f_equal. lia.
    + intros j x Hj. specialize (H (S j) x Hj).
      replace (S i + j)%nat with (i + S j)%nat by lia. exact H.
Qed.

(** The loop appends, index by index, what the iteration at that index of
    the input contributes; [fuel] beyond the number of lines left is
    enough. *)
Lemma loop_visited (fuel : nat) (lines : list str) :
  forall (i : nat) (acc : list str),
    (length lines <= i + fuel)%nat ->
    loop fuel lines i acc =
    Some (acc ++ concat (map (emitted lines) (visited fuel lines i))).
Proof.
  induction fuel as [|fuel IH]; intros i acc Hlen.
  - assert (E : lines !! i = None) by (apply lookup_ge_None; lia).
    rewrite loop_end by assumption. cbn [visited]. rewrite E. cbn.
    rewrite app_nil_r. reflexivity.
  - destruct (lines !! i) as [l|] eqn:E.
    + cbn [loop visited]. rewrite E.
      assert (Hem : emitted lines i =
                match body lines i l with Append l' => [l'] | SkipBlock => [] end)
        by (unfold emitted; rewrite E; reflexivity).
      destruct (body lines i l) as [l'|] eqn:B.
      * rewrite IH by lia. cbn [map concat]. rewrite Hem, <- app_assoc.
        reflexivity.
      * assert (Hpos : (1 <= skip_count 0 (drop i lines))%nat).
        { apply skip_count_pos. intros Hnil.
          apply (f_equal length) in Hnil. rewrite length_drop in Hnil.
          apply lookup_lt_Some in E. simpl in Hnil. lia. }
        rewrite IH by lia. cbn [map concat]. rewrite Hem. reflexivity.
    + rewrite loop_end by assumption. cbn [visited]. rewrite E. cbn.
      rewrite app_nil_r. reflexivity.
Qed.

(** The loop ends, whatever the lines. *)
Lemma patch_lines_total (lines : list str) :
  patch_lines lines =
  Some (concat (map (emitted lines) (visited (length lines) lines 0))).
Proof. unfold patch_lines. rewrite loop_visited by lia. reflexivity. Qed.

Lemma run_loop_ok (lines : list str) (w : world) :
  run_loop lines w =
  (Ok (concat (map (emitted lines) (visited (length lines) lines 0))), w).
Proof. unfold run_loop. rewrite patch_lines_total. reflexivity. Qed.

(** The partly built output has no part in what the loop does next. *)
Lemma loop_acc (fuel : nat) (lines : list str) :
  forall (i : nat) (acc : list str),
    loop fuel lines i acc = (fun out => acc ++ out) <$> loop fuel lines i [].
Proof.
  induction fuel as [|fuel IH]; intros i acc; cbn [loop].
  - destruct (lines !! i); cbn; [reflexivity|]. rewrite app_nil_r. reflexivity.
  - destruct (lines !! i) as [l|]; cbn;
      [|rewrite app_nil_r; reflexivity].
    destruct (body lines i l) as [l'|].
    + rewrite (IH (S i) (acc ++ [l'])), (IH (S i) [l']).
      destruct (loop fuel lines (S i) []); cbn; [|reflexivity].
      rewrite <- app_assoc. reflexivity.
    + apply IH.
Qed.

(** The visited indices are indices of the input, in increasing order. *)
Lemma visited_bounds (fuel : nat) (lines : list str) :
  forall i j, In j (visited fuel lines i) ->
    (i <= j)%nat /\ (j < length lines)%nat.
Proof.
  induction fuel as [|fuel IH]; intros i j; cbn [visited].
  - destruct (lines !! i); intros [].
  - destruct (lines !! i) as [l|] eqn:E; [|intros []].
    pose proof (lookup_lt_Some _ _ _ E) as Hi.
    intros [<-|Hj]; [lia|].
    destruct (body lines i l); apply IH in Hj; lia.
Qed.

Lemma visited_sorted (fuel : nat) (lines : list str) :
  forall i, StronglySorted lt (visited fuel lines i).
Proof.
  induction fuel as [|fuel IH]; intros i; cbn [visited].
  - destruct (lines !! i); constructor.
  - destruct (lines !! i) as [l|] eqn:E; [|constructor].
    assert (Hpos : (1 <= skip_count 0 (drop i lines))%nat).
    { apply skip_count_pos. intros Hnil.
      apply (f_equal length) in Hnil. rewrite length_drop in Hnil.
      apply lookup_lt_Some in E. simpl in Hnil. lia. }
    constructor.
    + destruct (body lines i l); apply IH.
    + apply Forall_forall. intros j Hj. apply list_elem_of_In in Hj.
      destruct (body lines i l); apply visited_bounds in Hj; lia.
Qed.

End LineFacts.

(** ** Facts about one iteration and about braces *)

Module BodyFacts.
Import Text Fs Notions TextFacts FixUserController LineFacts.
Local Open Scope string_scope.

Lemma body_skip_inv (lines : list str) (i : nat) (l : str) :
  body lines i l = SkipBlock ->
  between 80 85 i = true /\ has "_count:" (early_rules i l) = true.
Proof.
  unfold body. cbv zeta.
  destruct (Nat.eqb i 69 && has "status: true," (early_rules i l));
    [discriminate|].
  destruct (between 80 85 i && has "_count:" (early_rules i l)) eqn:E.
  - intros _. apply andb_prop in E. exact E.
  - destruct ((Nat.eqb i 287 || Nat.eqb i 383) && _); discriminate.
Qed.

Lemma body_skip_intro (lines : list str) (i : nat) (l : str) :
  between 80 85 i = true -> has "_count:" (early_rules i l) = true ->
  body lines i l = SkipBlock.
Proof.
  intros Hb Hc. unfold body. cbv zeta.
  assert (Nat.eqb i 69 = false) as ->.
  { unfold between in Hb. apply andb_prop in Hb as [H1 H2].
    apply Nat.leb_le in H1. apply Nat.eqb_neq. lia. }
  cbn [andb]. rewrite Hb, Hc. reflexivity.
Qed.

(** *** Rewrites keep the braces of a line *)

Lemma rewrite_if_count (c : char) (cond : bool) (old new : string) (l : str) :
  lit old <> [] -> count_char c (lit old) = count_char c (lit new) ->
  count_char c (rewrite_if cond old new l) = count_char c l.
Proof.
  intros Hne Heq. unfold rewrite_if. destruct cond; [|reflexivity].
  apply count_char_replace; assumption.
Qed.

Lemma return_if_count (c : char) (cond : bool) (l : str) :
  isspace c = false -> count_char c (lit "    return ") = 0%nat ->
  count_char c (return_if cond l) = count_char c l.
Proof.
  intros Hs H0. unfold return_if. destruct cond; [|reflexivity].
  rewrite count_char_app, H0, count_char_lstrip by assumption. reflexivity.
Qed.

Ltac brace_side :=
  first [ discriminate | vm_compute; reflexivity ].

Ltac keep_braces :=
  repeat first
    [ rewrite rewrite_if_count by brace_side
    | rewrite return_if_count by brace_side ].

Section Braces.
Variable c : char.
Hypothesis c_brace : c = lbrace \/ c = rbrace.

Lemma early_rules_count (i : nat) (l : str) :
  count_char c (early_rules i l) = count_char c l.
Proof using c_brace.
  unfold early_rules. cbv zeta.
  destruct c_brace as [-> | ->]; keep_braces; reflexivity.
Qed.

Lemma middle_rules_count (lines : list str) (i : nat) (l : str) :
  count_char c (middle_rules lines i l) = count_char c l.
Proof using c_brace.
  unfold middle_rules. cbv zeta.
  destruct c_brace as [-> | ->]; keep_braces; reflexivity.
Qed.

Lemma delete_rules_count (l : str) :
  count_char c (delete_rules l) = count_char c l.
Proof using c_brace.
  unfold delete_rules. cbv zeta.
  destruct c_brace as [-> | ->]; keep_braces; reflexivity.
Qed.

Lemma late_rules_count (i : nat) (l : str) :
  count_char c (late_rules i l) = count_char c l.
Proof using c_brace.
  unfold late_rules.
  set (l0 := if between 456 472 i then delete_rules l else l).
  assert (H0 : count_char c l0 = count_char c l).
  { subst l0. destruct (between 456 472 i);
      [apply delete_rules_count|reflexivity]. }
  rewrite <- H0. clearbody l0. cbv zeta.
  destruct c_brace as [-> | ->]; keep_braces; reflexivity.
Qed.

Lemma status_removal_count (l : str) :
  count_char c (replace (lit "status: true,") [] l) = count_char c l.
Proof using c_brace.
  apply count_char_replace; [discriminate|].
  destruct c_brace as [-> | ->]; vm_compute; reflexivity.
Qed.

(** What an iteration appends has the braces of the line it read. *)
Lemma emit_count (lines : list str) (i : nat) (l : str) :
  count_char c (emit lines i l) = count_char c l.
Proof using c_brace.
  unfold emit, body. cbv zeta.
  destruct (Nat.eqb i 69 && _).
  { rewrite status_removal_count. apply early_rules_count. }
  destruct (between 80 85 i && _); [reflexivity|].
  destruct ((Nat.eqb i 287 || Nat.eqb i 383) && _).
  - rewrite status_removal_count, middle_rules_count.
    apply early_rules_count.
  - rewrite late_rules_count, middle_rules_count. apply early_rules_count.
Qed.

Lemma count_in_lines_app (a b : list str) :
  count_in_lines c (a ++ b) = (count_in_lines c a + count_in_lines c b)%nat.
Proof.
  clear c_brace.
  induction a as [|l a IH]; cbn [app count_in_lines foldr]; [reflexivity|].
  fold (count_in_lines c (a ++ b)). fold (count_in_lines c a). lia.
Qed.

Lemma count_in_lines_emit (lines seg : list str) :
  forall k,
    count_in_lines c (imap (fun j l => emit lines (k + j) l) seg) =
    count_in_lines c seg.
Proof using c_brace.
  induction seg as [|l seg IH]; intros k; [reflexivity|].
  cbn [imap count_in_lines foldr].
  fold (count_in_lines c seg).
  rewrite emit_count. f_equal.
  rewrite <- (IH (S k)). unfold count_in_lines. f_equal.
  apply imap_ext. intros j x _. cbn. f_equal. lia.
Qed.

End Braces.

(** *** The brace-depth skip on a block of two nested groups *)

Lemma skip_count_brace_free (d : Z) (mid rest : list str) :
  forallb brace_free mid = true ->
  skip_count d (mid ++ rest) = (length mid + skip_count d rest)%nat.
Proof.
  induction mid as [|l mid IH]; intros H; [reflexivity|].
  cbn [forallb] in H. apply andb_prop in H as [Hl Hmid].
  unfold brace_free in Hl. apply andb_prop in Hl as [Ho Hc].
  apply negb_true_iff in Ho, Hc.
  cbn [app skip_count length]. rewrite Ho, Hc. cbv zeta.
  rewrite IH by assumption. reflexivity.
Qed.

Lemma skip_count_opens (d : Z) (l : str) (rest : list str) :
  opens l = true -> skip_count d (l :: rest) = S (skip_count (d + 1) rest).
Proof.
  unfold opens. intros H. apply andb_prop in H as [Ho Hc].
  apply negb_true_iff in Hc. cbn [skip_count]. rewrite Ho, Hc. reflexivity.
Qed.

Lemma skip_count_closes (d : Z) (l : str) (rest : list str) :
  closes l = true ->
  skip_count d (l :: rest) =
  if (d - 1 =? 0)%Z then 1%nat else S (skip_count (d - 1) rest).
Proof.
  unfold closes. intros H. apply andb_prop in H as [Ho Hc].
  apply negb_true_iff in Ho. cbn [skip_count]. rewrite Ho, Hc. reflexivity.
Qed.

Lemma skip_count_nested (o1 o2 c2 c1 : str) (m1 m2 m3 post : list str) :
  opens o1 = true -> forallb brace_free m1 = true ->
  opens o2 = true -> forallb brace_free m2 = true ->
  closes c2 = true -> forallb brace_free m3 = true ->
  closes c1 = true ->
  skip_count 0 ((o1 :: m1 ++ o2 :: m2 ++ c2 :: m3 ++ [c1]) ++ post) =
  length (o1 :: m1 ++ o2 :: m2 ++ c2 :: m3 ++ [c1]).
Proof.
  intros Ho1 Hm1 Ho2 Hm2 Hc2 Hm3 Hc1.
  cbn [app]. rewrite skip_count_opens by assumption.
  rewrite <- !app_assoc. rewrite skip_count_brace_free by assumption.
  cbn [app]. rewrite skip_count_opens by assumption.
  rewrite <- !app_assoc. rewrite skip_count_brace_free by assumption.
  cbn [app]. rewrite skip_count_closes by assumption.
  rewrite <- !app_assoc. cbn [Z.add Z.sub Z.eqb Z.opp Z.pos_sub Pos.add
    Pos.succ Pos.pred_double Z.succ_double Z.pred_double Z.double].
  change ((0 + 1 + 1 - 1 =? 0)%Z) with false. cbv iota.
  rewrite skip_count_brace_free by assumption.
  cbn [app]. rewrite skip_count_closes by assumption.
  change ((0 + 1 + 1 - 1 - 1 =? 0)%Z) with true. cbv iota.
  cbn [length]. rewrite !length_app. cbn [length]. rewrite !length_app.
  cbn [length]. rewrite !length_app. cbn [length]. lia.
Qed.

End BodyFacts.

(** ** Facts about [splitlines] and [join] *)

Module SplitFacts.
Import Text Notions TextFacts FixUserController LineFacts.

Lemma join_cons_char (sep : str) (c : char) (l : str) (ls : list str) :
  join sep ((c :: l) :: ls) = c :: join sep (l :: ls).
Proof. destruct ls; reflexivity. Qed.

Lemma join_cons (sep x : str) (xs : list str) :
  xs <> [] -> join sep (x :: xs) = x ++ sep ++ join sep xs.
Proof. destruct xs; [congruence|reflexivity]. Qed.

Lemma splitlines_nonempty (s : str) : s <> [] -> splitlines s <> [].
Proof.
  destruct s as [|c s]; [congruence|]. intros _. cbn [splitlines].
  destruct (is_linebreak c).
  - destruct (c =? CR); [destruct s as [|d s]; [|destruct (d =? LF)]|];
      discriminate.
  - destruct (splitlines s); discriminate.
Qed.

Lemma not_linebreak_not_LF (c : char) :
  is_linebreak c = false -> (c =? LF) = false.
Proof.
  intros H. destruct (N.eqb_spec c LF) as [->|]; [|reflexivity].
  vm_compute in H. discriminate.
Qed.

(** A text whose only line boundary is the newline, followed by a final
    newline: splitting and joining gives the text without that newline. *)
Lemma join_splitlines_LF (body : str) :
  forallb only_lf body = true ->
  join [LF] (splitlines (body ++ [LF])) = body.
Proof.
  induction body as [|c body IH]; intros H; [reflexivity|].
  cbn [forallb] in H. apply andb_prop in H as [Hc Hbody].
  specialize (IH Hbody).
  assert (Hne : splitlines (body ++ [LF]) <> [])
    by (apply splitlines_nonempty; destruct body; discriminate).
  cbn [app splitlines]. unfold only_lf in Hc.
  destruct (is_linebreak c) eqn:Hlb.
  - cbn [negb orb] in Hc. apply N.eqb_eq in Hc. subst c.
    change (LF =? CR) with false. cbv iota.
    rewrite join_cons by assumption. rewrite IH. reflexivity.
  - destruct (splitlines (body ++ [LF])) as [|l ls]; [congruence|].
    rewrite join_cons_char, IH. reflexivity.
Qed.

(** After a last character that is no line boundary, a final newline adds
    no line. *)
Lemma splitlines_trailing (b0 : str) (c : char) :
  is_linebreak c = false ->
  splitlines ((b0 ++ [c]) ++ [LF]) = splitlines (b0 ++ [c]).
Proof.
  intros Hc. pose proof (not_linebreak_not_LF c Hc) as HLF.
  induction b0 as [b0 IH] using (induction_ltof1 _ (@length char)).
  unfold ltof in IH. destruct b0 as [|x b1].
  - cbn [app splitlines]. rewrite Hc. reflexivity.
  - assert (use : forall b, (length b < length (x :: b1))%nat ->
              splitlines ((b ++ [c]) ++ [LF]) = splitlines (b ++ [c]))
      by (intros b Hb; apply IH, Hb).
    clear IH. cbn [app]. cbn [splitlines].
    destruct (is_linebreak x).
    + destruct (x =? CR).
      * destruct b1 as [|d b2].
        -- cbn [app]. rewrite HLF.
           pose proof (use [] ltac:(simpl; lia)) as E. cbn [app] in E.
           rewrite E. reflexivity.
        -- cbn [app]. destruct (d =? LF).
           ++ rewrite (use b2) by (simpl; lia). reflexivity.
           ++ pose proof (use (d :: b2) ltac:(simpl; lia)) as E.
              cbn [app] in E. rewrite E. reflexivity.
      * rewrite (use b1) by (simpl; lia). reflexivity.
    + rewrite (use b1) by (simpl; lia). reflexivity.
Qed.



(** Where no rule fires, the loop returns the lines it was given. *)
Lemma untouched_patch (lines : list str) :
  untouched lines -> patch_lines lines = Some lines.
Proof.
  intros H. unfold patch_lines.
  replace (length lines) with (length lines + 0)%nat at 1 by lia.
  rewrite (loop_append_run lines lines 0 [] 0).
  - rewrite loop_end by (apply lookup_ge_None; lia). cbn [app]. f_equal.
    transitivity (imap (fun _ l => l) lines).
    + apply imap_ext. intros j l Hj. cbn. unfold emit.
      rewrite (H j l Hj). reflexivity.
    + change (imap (const id) lines = lines).
      rewrite imap_const. apply list_fmap_id.
  - intros j l Hj. cbn [Nat.add]. split; [exact Hj|].
    rewrite (H j l Hj). discriminate.
Qed.

End SplitFacts.

(** ** The line-indexed script as a whole *)

Module ScriptFacts.
Import Text Fs Notions FixUserController LineFacts.
Local Open Scope string_scope.

Lemma fix_user_controller_run (w : world) (c : str) (new_lines : list str) :
  files w !! controller_path = Some c ->
  patch_lines (splitlines c) = Some new_lines ->
  fix_user_controller w =
  (Ok tt,
   World (<[controller_path := join [LF] new_lines]> (files w))
         (ops w ++ [OpRead controller_path; OpTruncate controller_path;
                    OpWrite controller_path (join [LF] new_lines)])
         (stdout w ++ ["Fixed " ++ controller_path])).
Proof.
  intros Hc Hp. unfold fix_user_controller. cbv zeta.
  erewrite FsFacts.bind_ok; [|unfold read_text; rewrite Hc; reflexivity].
  erewrite FsFacts.bind_ok; [|unfold run_loop; rewrite Hp; reflexivity].
  erewrite FsFacts.bind_ok; [|apply FsFacts.write_text_run].
  unfold print. cbn [files ops stdout]. rewrite <- app_assoc. reflexivity.
Qed.

End ScriptFacts.

(** * The claims about the line-indexed patcher *)

Module LineClaims.
Import Text Fs Notions TextFacts FixUserController LineFacts BodyFacts
  ScriptFacts.
Local Open Scope string_scope.

(** C5.  The code does not do what the claim and its own comment ([Skip
    the duplicate _count block]) ask for: the skip counts the LINES that
    contain a brace, not the braces.  With both opening braces of the block
    on the guard line, the depth is back to 0 at the first closing line, so
    the skip ends there: the last line of the brace-balanced block stays in
    the buffer, and the excess of opening over closing braces changes. *)
Lemma two_braces_on_one_line :
  let lines := (sample_pre ++ squeezed_block ++ sample_post)%list in
  let out := (sample_pre ++ [lit "          },"] ++ sample_post)%list in
  patch_lines lines = Some out /\
  patch_lines lines <> Some (sample_pre ++ sample_post)%list /\
  balance squeezed_block = 0%Z /\
  balance out <> balance lines.
Proof.
  intros lines out.
  assert (E : patch_lines lines = Some out) by (vm_compute; reflexivity).
  split; [exact E|]. split; [rewrite E; vm_compute; discriminate|].
  split; vm_compute; [reflexivity|discriminate].
Qed.

(** X20.  The rule guarded by [_count:] (and by the index range 80..85),
    met at the head of a block of two nested brace groups laid out one
    brace per line -- an opening line, an inner opening line, an inner
    closing line and a closing line, with brace-free lines between them --
    drops the lines of that block and no other line, provided the guard
    holds on no line outside the block: every line before and after the
    block is appended, rewritten by the rules evaluated at its own
    input index.  The braces of the lines outside the block are all kept,
    and, the block having as many opening as closing braces, the excess of
    opening over closing braces in the buffer is what it was. *)
Theorem count_block_deleted (pre m1 m2 m3 post : list str)
    (o1 o2 c2 c1 : str) :
  let block := o1 :: m1 ++ o2 :: m2 ++ c2 :: m3 ++ [c1] in
  let lines := (pre ++ block ++ post)%list in
  let out :=
    (imap (fun j l => emit lines j l) pre ++
     imap (fun j l => emit lines (length pre + length block + j) l) post)%list
  in
  between 80 85 (length pre) = true ->
  (forall j l, pre !! j = Some l -> between 80 85 j = true ->
     has "_count:" (early_rules j l) = false) ->
  (forall j l, post !! j = Some l ->
     between 80 85 (length pre + length block + j) = true ->
     has "_count:" (early_rules (length pre + length block + j) l) = false) ->
  has "_count:" (early_rules (length pre) o1) = true ->
  opens o1 = true -> forallb brace_free m1 = true ->
  opens o2 = true -> forallb brace_free m2 = true ->
  closes c2 = true -> forallb brace_free m3 = true ->
  closes c1 = true ->
  count_in_lines lbrace block = count_in_lines rbrace block ->
  patch_lines lines = Some out /\
  length out = (length pre + length post)%nat /\
  count_in_lines lbrace out =
    (count_in_lines lbrace pre + count_in_lines lbrace post)%nat /\
  count_in_lines rbrace out =
    (count_in_lines rbrace pre + count_in_lines rbrace post)%nat /\
  balance out = balance lines.
Proof.
  intros block lines out Hrange Hearlier Hlater Hguard
    Ho1 Hm1 Ho2 Hm2 Hc2 Hm3 Hc1 Hbal.
  assert (Hcounts : forall c, c = lbrace \/ c = rbrace ->
     count_in_lines c out =
       (count_in_lines c pre + count_in_lines c post)%nat /\
     (count_in_lines c out + count_in_lines c block)%nat =
       count_in_lines c lines).
  { intros c Hc. subst out lines.
    rewrite !count_in_lines_app.
    rewrite (count_in_lines_emit c Hc _ pre 0).
    rewrite (count_in_lines_emit c Hc _ post (length pre + length block)).
    lia. }
  destruct (Hcounts lbrace (or_introl eq_refl)) as [Hl1 Hl2].
  destruct (Hcounts rbrace (or_intror eq_refl)) as [Hr1 Hr2].
  split; [|split; [|split; [exact Hl1|split; [exact Hr1|unfold balance; lia]]]].
  - unfold patch_lines.
    assert (Hlen : length lines =
              (length pre + (1 + (length post + (length block - 1))))%nat).
    { subst lines block. rewrite !length_app. cbn [length]. lia. }
    rewrite Hlen.
    (* the lines before the block *)
    rewrite (loop_append_run lines pre 0 []).
    2:{ intros j l Hj. cbn [Nat.add]. split.
        - subst lines. rewrite lookup_app_l by (eapply lookup_lt_Some, Hj).
          exact Hj.
        - intros Hs. apply body_skip_inv in Hs as [Hb Hg].
          rewrite (Hearlier j l Hj Hb) in Hg. discriminate. }
    cbn [Nat.add app].
    (* the guard line: the skip passes over the block *)
    assert (Hat : lines !! length pre = Some o1).
    { subst lines block. rewrite lookup_app_r by lia.
      rewrite Nat.sub_diag. reflexivity. }
    rewrite (loop_step_skip _ _ _ _ _ Hat (body_skip_intro _ _ _ Hrange Hguard)).
    assert (Hdrop : drop (length pre) lines = (block ++ post)%list).
    { subst lines. rewrite drop_app_length. reflexivity. }
    assert (Hskip : skip_count 0 (block ++ post) = length block)
      by (apply skip_count_nested; assumption).
    rewrite Hdrop, Hskip.
    (* the lines after the block *)
    rewrite (loop_append_run lines post).
    2:{ intros j l Hj. split.
        - subst lines. rewrite lookup_app_r by lia.
          rewrite lookup_app_r by lia. rewrite <- Hj. f_equal. lia.
        - intros Hs. apply body_skip_inv in Hs as [Hb Hg].
          rewrite (Hlater j l Hj Hb) in Hg. discriminate. }
    apply loop_end. apply lookup_ge_None.
    subst lines. rewrite !length_app. lia.
  - subst out. rewrite length_app, !length_imap. reflexivity.
Qed.

Lemma count_block_deleted_witness :
  let block := lit "          _count: {" :: [] ++
               lit "            select: {" ::
               [lit "              createdDocuments: true,";
                lit "              assignedDocuments: true"] ++
               lit "            }" :: [] ++ [lit "          },"] in
  let lines := (sample_pre ++ block ++ sample_post)%list in
  let out :=
    (imap (fun j l => emit lines j l) sample_pre ++
     imap (fun j l => emit lines (length sample_pre + length block + j) l)
          sample_post)%list
  in
  patch_lines lines = Some out /\
  length out = (length sample_pre + length sample_post)%nat /\
  count_in_lines lbrace out =
    (count_in_lines lbrace sample_pre + count_in_lines lbrace sample_post)%nat
  /\
  count_in_lines rbrace out =
    (count_in_lines rbrace sample_pre + count_in_lines rbrace sample_post)%nat
  /\
  balance out = balance lines.
Proof.
  apply (count_block_deleted sample_pre []
           [lit "              createdDocuments: true,";
            lit "              assignedDocuments: true"] [] sample_post
           (lit "          _count: {") (lit "            select: {")
           (lit "            }") (lit "          },")).
  - reflexivity.
  - intros j l Hj Hb. apply lookup_lt_Some in Hj.
    change (length sample_pre) with 80%nat in Hj.
    unfold between in Hb. apply andb_prop in Hb as [Hb _].
    apply Nat.leb_le in Hb. lia.
  - intros j l _ Hb. unfold between in Hb. apply andb_prop in Hb as [_ Hb].
    apply Nat.leb_le in Hb. change (length sample_pre) with 80%nat in Hb.
    cbn [length app] in Hb. lia.
  - vm_compute. reflexivity.
  - vm_compute. reflexivity.
  - reflexivity.
  - vm_compute. reflexivity.
  - vm_compute. reflexivity.
  - vm_compute. reflexivity.
  - reflexivity.
  - vm_compute. reflexivity.
  - vm_compute. reflexivity.
Defined.

(** The six-line block at index 80: what is left is the lines around it. *)
Lemma sample_block_deleted :
  patch_lines (sample_pre ++ sample_block ++ sample_post) =
  Some (sample_pre ++ sample_post)%list.
Proof. vm_compute. reflexivity. Qed.

(** C10.  The loop's output is, index by index of the INPUT, what the
    iteration at that index contributes: the indices at which the guards
    are evaluated form an increasing sequence of positions of the input
    lines, each contribution depends on the input lines and on that index
    only, and the output built so far has no part in what follows.  Lines
    dropped earlier therefore do not move the index at which a later
    index-guarded rule fires. *)
Theorem index_guards_use_input_numbering (lines : list str) :
  let idx := visited (length lines) lines 0 in
  patch_lines lines = Some (concat (map (emitted lines) idx)) /\
  StronglySorted lt idx /\
  (forall i, In i idx -> (i < length lines)%nat) /\
  (forall fuel i acc,
     loop fuel lines i acc =
     (fun out => acc ++ out)%list <$> loop fuel lines i []).
Proof.
  intros idx. split; [apply patch_lines_total|].
  split; [apply visited_sorted|]. split.
  - intros i Hi. apply visited_bounds in Hi. lia.
  - intros fuel i acc. apply loop_acc.
Qed.

(** With the six-line block dropped at index 80, the rule for line 287
    still fires on line 287 of the input (which is line 281 of the output)
    and not on line 293 of the input (which is line 287 of the output). *)
Lemma later_guard_not_shifted :
  patch_lines shift_sample =
  Some (sample_pre ++ replicate 201 (lit "x") ++ [lit "        "]
        ++ replicate 5 (lit "y") ++ [status_line])%list.
Proof. vm_compute. reflexivity. Qed.

(** A file in which no rule fires, that ends with a newline and has no
    other kind of line boundary, is written back without that newline. *)
Lemma untouched_file_loses_newline (fs : gmap path str) (body : str) :
  fs !! controller_path = Some (body ++ [LF])%list ->
  forallb only_lf body = true ->
  untouched (splitlines (body ++ [LF])%list) ->
  files (fix_user_controller (init fs)).2 !! controller_path = Some body.
Proof.
  intros Hc Hlf Hun.
  rewrite (fix_user_controller_run (init fs) _ _ Hc
             (SplitFacts.untouched_patch _ Hun)).
  cbn [snd files]. rewrite lookup_insert_eq.
  rewrite SplitFacts.join_splitlines_LF by assumption. reflexivity.
Qed.




(** Two lines and a final newline, no rule fires: the second line is
    written back without its newline. *)
Lemma two_lines_lose_final_newline :
  let body := (lit "const a = 1;" ++ [LF] ++ lit "const b = 2;")%list in
  let fs : gmap path str := {[controller_path := (body ++ [LF])%list]} in
  untouched (splitlines (body ++ [LF])%list) /\
  files (fix_user_controller (init fs)).2 !! controller_path = Some body.
Proof.
  intros body fs.
  assert (Hun : untouched (splitlines (body ++ [LF])%list)).
  { intros i line H. vm_compute in H.
    destruct i as [|[|i]]; try discriminate;
      injection H as <-; vm_compute; reflexivity. }
  split; [exact Hun|].
  apply untouched_file_loses_newline;
    [apply lookup_singleton_eq|vm_compute; reflexivity|exact Hun].
Qed.

(** When rules do fire, the final newline is as absent: after a last line
    that is not empty, the patcher writes for the text with the final
    newline what it writes for the text without it. *)
Lemma final_newline_ignored (fs : gmap path str) (b0 : str) (c : char) :
  is_linebreak c = false ->
  fs !! controller_path = Some ((b0 ++ [c]) ++ [LF])%list ->
  files (fix_user_controller (init fs)).2 !! controller_path =
  files (fix_user_controller
           (init (<[controller_path := (b0 ++ [c])%list]> fs))).2
    !! controller_path.
Proof.
  intros Hc Hfs.
  rewrite (fix_user_controller_run (init fs) _ _ Hfs (patch_lines_total _)).
  rewrite (fix_user_controller_run
             (init (<[controller_path := (b0 ++ [c])%list]> fs)) _ _
             (lookup_insert_eq _ _ _) (patch_lines_total _)).
  cbn [snd files]. rewrite !lookup_insert_eq.
  rewrite SplitFacts.splitlines_trailing by assumption. reflexivity.
Qed.

(** *** The guard on the activity log *)

(** The guard of source line 55 holds when the line contains the
    [orderBy] text and one of the last eleven lines IS the string
    [activityLog]. *)
Lemma activity_guard_spec (lines : list str) (i : nat) (line : str) :
  activity_guard lines i line = true <->
  has "orderBy: { createdAt:" line = true /\
  In (lit "activityLog") (window lines i).
Proof.
  unfold activity_guard. rewrite andb_true_iff, list_contains_In. tauto.
Qed.

(** C4, the code at the failing input.  In [activity_sample] the text
    [activityLog] occurs in a line two lines above the [orderBy] line, well
    inside the window of ten lines, and yet the guard is false there and the
    loop leaves every line as it was; with a line that is exactly
    [activityLog] in the window, the guard holds. *)
Theorem activity_guard_wants_a_whole_line :
  existsb (has "activityLog") (window activity_sample 2) = true /\
  activity_guard activity_sample 2
    (lit "      orderBy: { createdAt: 'desc' },") = false /\
  patch_lines activity_sample = Some activity_sample /\
  patch_lines [lit "activityLog"; lit "orderBy: { createdAt: 'desc' }"] =
    Some [lit "activityLog"; lit "orderBy: { timestamp: 'desc' }"].
Proof. vm_compute. repeat split; reflexivity. Qed.

(** *** Removing a line *)

(** C6, the code at the failing input.  The rule for index 69 removes the
    text [status: true,] from the line and appends what is left: the line
    that held nothing else stays in the output as a line of spaces, and the
    output has as many lines as the input. *)
Theorem status_line_leaves_blank_line :
  patch_lines select_sample =
    Some (replicate 69 (lit "        id: true,")
          ++ [lit "        "; lit "        role: true,"])%list /\
  (forall out, patch_lines select_sample = Some out ->
     length out = length select_sample /\
     out !! 69%nat = Some (lit "        ")).
Proof.
  assert (E : patch_lines select_sample =
    Some (replicate 69 (lit "        id: true,")
          ++ [lit "        "; lit "        role: true,"])%list)
    by (vm_compute; reflexivity).
  split; [exact E|]. intros out H. rewrite E in H. injection H as <-.
  split; reflexivity.
Qed.

(** The whole-text patcher of [fix_errors.py] removes the same field
    together with the line break before it. *)
Lemma regex_path_removes_line :
  FixErrors.apply_rule FixErrors.remove_status_rule
    (join [LF] [lit "        id: true,"; lit "        status: true,";
                lit "        role: true,"]) =
  join [LF] [lit "        id: true,"; lit "        role: true,"].
Proof. vm_compute. reflexivity. Qed.

End LineClaims.

(** * The claim about writing back *)

Module WriteBackClaims.
Import Text Fs Notions FixUserController LineFacts ScriptFacts.
Local Open Scope string_scope.

(** C1, as stated, fails: on a file that no rule changes,
    [fix_status_controller] still truncates the file and writes it again;
    it writes no other file and renames nothing; and interrupted between
    the two operations it leaves the file empty. *)
Lemma write_back_not_atomic :
  let fs : gmap path str :=
    {[FixErrors.status_path := lit "const x = 1;"]} in
  let os := ops (FixErrors.fix_status_controller (init fs)).2 in
  os = [OpRead FixErrors.status_path; OpTruncate FixErrors.status_path;
        OpWrite FixErrors.status_path (lit "const x = 1;")] /\
  ~ writes_through_rename os FixErrors.status_path /\
  ~ survives_interruption fs os FixErrors.status_path.
Proof.
  intros fs os.
  assert (E : os =
    [OpRead FixErrors.status_path; OpTruncate FixErrors.status_path;
     OpWrite FixErrors.status_path (lit "const x = 1;")])
    by (vm_compute; reflexivity).
  split; [exact E|]. split.
  - intros (tmp & data & Hne & Hw & _). rewrite E in Hw.
    cbn [In] in Hw. destruct Hw as [H|[H|[H|[]]]]; try discriminate.
    injection H as H _. congruence.
  - intros H. specialize (H 2%nat). rewrite E in H.
    vm_compute in H. destruct H; discriminate.
Qed.

(** C1, amended.  Each patcher writes the transformed buffer straight
    over the file it read: after the read, the file is opened for writing,
    which empties it, and the buffer is written; there is no temporary file
    and no rename, and the same three operations are made whether or not
    the buffer differs from what was read.  A run interrupted between the
    truncation and the write leaves the file empty.  This holds for the
    whole-text patcher [fix_status_controller] and for the line-indexed
    [fix_user_controller]. *)
Theorem write_back_in_place (fs : gmap path str) (c c' : str) :
  fs !! FixErrors.status_path = Some c ->
  fs !! controller_path = Some c' ->
  let w := (FixErrors.fix_status_controller (init fs)).2 in
  let new := FixErrors.apply_rules FixErrors.status_rules c in
  let w' := (fix_user_controller (init fs)).2 in
  (ops w = [OpRead FixErrors.status_path; OpTruncate FixErrors.status_path;
            OpWrite FixErrors.status_path new] /\
   files w = <[FixErrors.status_path := new]> fs /\
   replay (ops w) fs = files w /\
   replay (take 2 (ops w)) fs !! FixErrors.status_path = Some []) /\
  (exists new_lines,
     patch_lines (splitlines c') = Some new_lines /\
     ops w' = [OpRead controller_path; OpTruncate controller_path;
               OpWrite controller_path (join [LF] new_lines)] /\
     files w' = <[controller_path := join [LF] new_lines]> fs /\
     replay (ops w') fs = files w' /\
     replay (take 2 (ops w')) fs !! controller_path = Some []).
Proof.
  intros Hc Hc' w new w'. subst w new w'. split.
  - change FixErrors.fix_status_controller
      with (patch_file FixErrors.status_path
              (FixErrors.apply_rules FixErrors.status_rules)).
    rewrite (FsFacts.patch_file_ok _ _ (init fs) c Hc).
    cbn [snd ops files init app take replay foldl apply_op].
    rewrite !lookup_insert_eq, insert_insert_eq. auto.
  - eexists. split; [apply patch_lines_total|].
    rewrite (fix_user_controller_run (init fs) _ _ Hc' (patch_lines_total _)).
    cbn [snd ops files init app take replay foldl apply_op].
    rewrite !lookup_insert_eq, insert_insert_eq. auto.
Qed.

Lemma write_back_in_place_witness :
  let c := lit "assignee.status !== 'ACTIVE'" in
  let c' := (lit "const a = 1;" ++ [LF])%list in
  let fs : gmap path str :=
    {[FixErrors.status_path := c; controller_path := c']} in
  let w := (FixErrors.fix_status_controller (init fs)).2 in
  let new := FixErrors.apply_rules FixErrors.status_rules c in
  let w' := (fix_user_controller (init fs)).2 in
  (ops w = [OpRead FixErrors.status_path; OpTruncate FixErrors.status_path;
            OpWrite FixErrors.status_path new] /\
   files w = <[FixErrors.status_path := new]> fs /\
   replay (ops w) fs = files w /\
   replay (take 2 (ops w)) fs !! FixErrors.status_path = Some []) /\
  (exists new_lines,
     patch_lines (splitlines c') = Some new_lines /\
     ops w' = [OpRead controller_path; OpTruncate controller_path;
               OpWrite controller_path (join [LF] new_lines)] /\
     files w' = <[controller_path := join [LF] new_lines]> fs /\
     replay (ops w') fs = files w' /\
     replay (take 2 (ops w')) fs !! controller_path = Some []).
Proof.
  intros c c' fs.
  apply (write_back_in_place fs c c'); vm_compute; reflexivity.
Defined.

End WriteBackClaims.

(** ** Further facts about containment *)

Module TextMore.
Import Text TextFacts.

Lemma contains_cons_false (q : str) (c : char) (s : str) :
  contains q (c :: s) = false ->
  startswith q (c :: s) = false /\ contains q s = false.
Proof. cbn [contains]. intros H. apply orb_false_elim in H. exact H. Qed.

Lemma contains_drop_false (q : str) (k : nat) (s : str) :
  contains q s = false -> contains q (drop k s) = false.
Proof.
  revert s. induction k as [|k IH]; intros s H; [exact H|].
  destruct s as [|c s]; [exact H|].
  cbn [drop]. apply IH. apply contains_cons_false in H. tauto.
Qed.

Lemma contains_split (p s : str) :
  contains p s = true -> exists a b, s = a ++ p ++ b.
Proof.
  induction s as [|c s IH]; cbn [contains]; intros H.
  - apply orb_prop in H as [H|H]; [|discriminate].
    exists [], []. destruct p; [reflexivity|discriminate].
  - apply orb_prop in H as [H|H].
    + exists [], (drop (length p) (c :: s)). apply startswith_split, H.
    + destruct (IH H) as (a & b & ->). exists (c :: a), b. reflexivity.
Qed.

(** A text that holds [a ++ q ++ b] holds [q]. *)
Lemma contains_inner (a q b s : str) :
  contains q s = false -> contains (a ++ q ++ b) s = false.
Proof.
  intros H. destruct (contains (a ++ q ++ b) s) eqn:E; [|reflexivity].
  apply contains_split in E as (x & y & ->).
  rewrite <- !app_assoc in H.
  rewrite (app_assoc x a) in H. rewrite contains_app in H. discriminate.
Qed.




End TextMore.

(** ** Facts about matching *)

Module MatchFacts.
Import Text Re TextFacts TextMore Notions ReFacts MoreNotions.

Lemma star_k_from_k {R : Type} (c : cls) (s : str) (k : str -> option R)
    (x : R) :
  star_k c s k = Some x ->
  exists j, (j <= length s)%nat /\ k (drop j s) = Some x.
Proof.
  induction s as [|ch s IH]; cbn [star_k]; intros H.
  - exists O. split; [lia|exact H].
  - destruct (in_cls c ch).
    + destruct (star_k c s k) as [y|] eqn:E.
      * injection H as ->. destruct (IH eq_refl) as (j & Hj & Hk).
        exists (S j). split; [simpl; lia|exact Hk].
      * exists O. split; [lia|exact H].
    + exists O. split; [lia|exact H].
Qed.

(** A successful match is an answer of the continuation, on a suffix of
    the subject. *)
Lemma m_from_k (r : regex) :
  forall s g k x,
    m r s g k = Some x ->
    exists j g', (j <= length s)%nat /\ k (drop j s) g' = Some x.
Proof.
  induction r as [l|c|c|c|a IHa b IHb|a IHa b IHb|n a IHa];
    intros s g k x H; cbn [m] in H.
  - destruct (startswith l s) eqn:E; [|discriminate].
    exists (length l), g. split; [apply startswith_length, E|exact H].
  - destruct s as [|ch s]; [discriminate|].
    destruct (in_cls c ch); [|discriminate].
    exists 1%nat, g. split; [simpl; lia|exact H].
  - apply star_k_from_k in H as (j & Hj & H). exists j, g. auto.
  - destruct s as [|ch s]; [discriminate|].
    destruct (in_cls c ch); [|discriminate].
    apply star_k_from_k in H as (j & Hj & H).
    exists (S j), g. split; [simpl; lia|exact H].
  - apply IHa in H as (j & g1 & Hj & H).
    apply IHb in H as (j2 & g2 & Hj2 & H).
    exists (j + j2)%nat, g2. rewrite length_drop in Hj2.
    split; [lia|]. rewrite <- drop_drop. exact H.
  - destruct (m a s g k) eqn:E.
    + injection H as ->. eapply IHa, E.
    + eapply IHb, H.
  - apply IHa in H as (j & g1 & Hj & H). exists j. eauto.
Qed.

(** What a group around the whole pattern holds after a match: the text
    that was matched. *)
Lemma match_at_group (n : nat) (a : regex) (s : str) (len : nat) (g : caps) :
  match_at (Group n a) s = Some (len, g) ->
  (len <= length s)%nat /\ cap_get n g = Some (take len s).
Proof.
  unfold match_at. cbn [m].
  destruct (m a s [] _) as [[rest g0]|] eqn:E; [|discriminate].
  intros [= <- <-].
  apply m_from_k in E as (j & g' & Hj & E). injection E as <- <-.
  rewrite length_drop.
  replace (length s - (length s - j))%nat with j by lia.
  split; [exact Hj|]. cbn [cap_get]. rewrite Nat.eqb_refl. reflexivity.
Qed.

Lemma match_at_length (r : regex) (s : str) (len : nat) (g : caps) :
  match_at r s = Some (len, g) -> (len <= length s)%nat.
Proof.
  unfold match_at. destruct (m r s [] _) as [[rest g0]|]; [|discriminate].
  intros [= <- _]. lia.
Qed.



Lemma startswith_refl (l : str) : startswith l l = true.
Proof.
  induction l as [|c l IH]; [reflexivity|].
  cbn [startswith]. rewrite N.eqb_refl. exact IH.
Qed.

Lemma startswith_app_l (p a b : str) :
  startswith p a = true -> startswith p (a ++ b) = true.
Proof.
  revert a. induction p as [|c p IH]; intros a H; [reflexivity|].
  destruct a as [|d a]; [discriminate|].
  cbn [startswith app] in *. apply andb_prop in H as [H1 H2].
  rewrite H1. apply IH, H2.
Qed.

(** The matched text begins with the leading text of the pattern. *)
Lemma m_leading (r : regex) :
  forall a s g k x,
    leading_text r = Some a ->
    m r s g k = Some x ->
    exists j g', (j <= length s)%nat /\ k (drop j s) g' = Some x /\
      startswith a (take j s) = true.
Proof.
  induction r as [l|c|c|c|r1 IH1 r2 IH2|r1 IH1 r2 IH2|n r1 IH1];
    intros a s g k x Ha H; cbn [leading_text] in Ha; try discriminate;
    cbn [m] in H.
  - injection Ha as ->. destruct (startswith a s) eqn:E; [|discriminate].
    exists (length a), g. split; [apply startswith_length, E|].
    split; [exact H|]. apply startswith_split in E. rewrite E.
    rewrite take_app_length. apply startswith_refl.
  - eapply IH1 in H as (j & g1 & Hj & H & La); [|exact Ha].
    apply m_from_k in H as (j2 & g2 & Hj2 & H).
    exists (j + j2)%nat, g2. rewrite length_drop in Hj2.
    split; [lia|]. split; [rewrite <- drop_drop; exact H|].
    rewrite <- take_take_drop. apply startswith_app_l, La.
  - eapply IH1 in H as (j & g1 & Hj & H & La); [|exact Ha]. exists j. eauto.
Qed.

Lemma match_at_leading (r : regex) (a s : str) (len : nat) (g : caps) :
  leading_text r = Some a -> match_at r s = Some (len, g) ->
  startswith a (take len s) = true.
Proof.
  intros Ha. unfold match_at.
  destruct (m r s [] _) as [[rest g0]|] eqn:E; [|discriminate].
  intros [= <- <-].
  eapply m_leading in E as (j & g' & Hj & E & L); [|exact Ha].
  injection E as <- <-. rewrite length_drop.
  replace (length s - (length s - j))%nat with j by lia. exact L.
Qed.

(** The limit reached: the rest of the buffer is copied. *)
Lemma subn_go_exhausted (r : regex) (t : template) (count n : nat) (s : str) :
  may_replace count n = false -> subn_go r t count n 0 s = (s, n).
Proof. intros H. destruct s; cbn [subn_go]; rewrite H; reflexivity. Qed.


(** An echo gives the buffer back. *)
Lemma echo_subn_go (n : nat) (a : regex) (count : nat) (s : str) :
  forall cnt k,
    fst (subn_go (Group n a) [TRef n] count cnt k s) = drop k s.
Proof.
  induction s as [|c s IH]; intros cnt k.
  - rewrite drop_nil. cbn [subn_go]. destruct k; [|reflexivity].
    destruct (may_replace count cnt); [|reflexivity].
    destruct (match_at (Group n a) []) as [[len g]|] eqn:E; [|reflexivity].
    apply match_at_group in E as [Hlen Hg]. cbn [fst expand].
    rewrite Hg, take_nil. reflexivity.
  - cbn [subn_go]. destruct k as [|k]; [|apply IH].
    destruct (may_replace count cnt); [|reflexivity].
    destruct (match_at (Group n a) (c :: s)) as [[len g]|] eqn:E.
    + apply match_at_group in E as [Hlen Hg].
      destruct len as [|j].
      * specialize (IH (S cnt) O).
        destruct (subn_go (Group n a) [TRef n] count (S cnt) 0 s).
        cbn [fst expand] in *. rewrite Hg, IH. reflexivity.
      * specialize (IH (S cnt) j).
        destruct (subn_go (Group n a) [TRef n] count (S cnt) j s).
        cbn [fst expand] in *. rewrite Hg, IH. simpl.
        rewrite app_nil_r, take_drop. reflexivity.
    + specialize (IH cnt O).
      destruct (subn_go (Group n a) [TRef n] count cnt 0 s).
      cbn [fst] in *. rewrite IH. reflexivity.
Qed.

End MatchFacts.

(** * Further properties of the whole-text rules *)

Module RuleExtras.
Import Text Re Fs TextFacts Notions ReFacts MoreNotions MatchFacts FsFacts
  FixErrors.
Local Open Scope string_scope.

(** X1.  The [User.department include] substitution of
    [fix_search_controller] (one group around the whole pattern, replaced
    by that group) gives back every buffer as it is, so the patcher does
    what its five other substitutions do. *)
Theorem department_rule_changes_nothing (s : str) :
  apply_rule department_rule s = s /\
  apply_rules search_rules s =
  apply_rules [insensitive_rule; categories_rule; role_status_rule;
               status_active_rule; content_where_rule] s.
Proof.
  assert (E : forall b, apply_rule department_rule b = b).
  { intros b. unfold apply_rule, sub, subn.
    change (pattern department_rule) with
      (Group 1 (seqs [Plus Space; L "users: users.map(user => ({";
                      Plus (NoneOf (lit "}"));
                      L "department: user.department?.name"])).
    change (repl department_rule) with [TRef 1].
    apply (echo_subn_go 1 _ _ b 0 0). }
  split; [apply E|].
  unfold search_rules, apply_rules. cbn [foldl]. rewrite E. reflexivity.
Qed.



Lemma patchers_shape (f : M unit) (p : path) (rs : list rule) :
  In (f, p, rs) patchers -> f = patch_file p (apply_rules rs).
Proof.
  intros H. cbn [patchers In] in H.
  repeat (destruct H as [H|H]; [injection H as <- <- <-; reflexivity|]).
  destruct H.
Qed.





Lemma subn_lit_first (p : str) (t : template) (s : str) :
  p <> [] ->
  subn (Lit p) t s 1 =
  match find p s with
  | Some k =>
      ((take k s ++ expand t [] ++ drop (k + length p) s)%list, 1%nat)
  | None => (s, 0%nat)
  end.
Proof.
  intros Hp. unfold subn. induction s as [|c s IH].
  - cbn [subn_go find]. rewrite match_at_lit.
    destruct p; [congruence|reflexivity].
  - cbn [subn_go find]. rewrite match_at_lit.
    destruct (startswith p (c :: s)) eqn:E.
    + pose proof (startswith_length _ _ E) as Hlen.
      destruct p as [|a q]; [congruence|]. cbn [length] in *.
      cbn [may_replace Nat.eqb Nat.ltb Nat.leb orb].
      rewrite subn_go_skip by (simpl in Hlen; lia).
      rewrite subn_go_exhausted by reflexivity.
      cbn [take app Nat.add drop]. reflexivity.
    + cbn [may_replace Nat.eqb Nat.ltb Nat.leb orb]. rewrite IH.
      destruct (find p s) as [k|]; reflexivity.
Qed.

(** X4.  [fix_auth_controller] rewrites the first
    [return res.status(429).json(response);] of the buffer and nothing
    else: the text before it and everything after it, further occurrences
    included, is copied as it is; a buffer without an occurrence comes back
    unchanged. *)
Theorem auth_rule_first_only (s : str) :
  apply_rules auth_rules s =
  match find (lit "return res.status(429).json(response);") s with
  | Some k =>
      (take k s
       ++ (lit "res.status(429).json(response);" ++ nl ++ lit "      return;")
       ++ drop (k + 38) s)%list
  | None => s
  end.
Proof.
  unfold auth_rules, apply_rules. cbn [foldl].
  unfold apply_rule, sub.
  change (pattern rate_limit_rule)
    with (Lit (lit "return res.status(429).json(response);")).
  change (count rate_limit_rule) with 1%nat.
  rewrite subn_lit_first by discriminate.
  destruct (find _ s) as [k|]; [|reflexivity].
  cbn [fst]. reflexivity.
Qed.

(** Two occurrences: only the first is rewritten. *)
Lemma auth_rule_two_occurrences :
  apply_rules auth_rules
    (lit "a(); return res.status(429).json(response); b(); return res.status(429).json(response);")
  = (lit "a(); res.status(429).json(response);" ++ nl
     ++ lit "      return; b(); return res.status(429).json(response);")%list.
Proof. vm_compute. reflexivity. Qed.

(** With a limit of one and a replacement without group references: the
    first match, if there is one, is replaced and the rest is copied. *)
Lemma subn_go_first (r : regex) (t : template) (new : str) :
  (forall g, expand t g = new) ->
  forall s,
    subn_go r t 1 0 0 s = (s, 0%nat) \/
    exists a mid b g,
      s = (a ++ mid ++ b)%list /\
      match_at r (mid ++ b)%list = Some (length mid, g) /\
      (forall k, (k < length a)%nat -> match_at r (drop k s) = None) /\
      subn_go r t 1 0 0 s = ((a ++ new ++ b)%list, 1%nat).
Proof.
  intros Hnew s. induction s as [|c s IH].
  - cbn [subn_go may_replace Nat.eqb Nat.ltb Nat.leb orb].
    destruct (match_at r []) as [[len g]|] eqn:E; [|left; reflexivity].
    right. exists [], [], [], g.
    pose proof (match_at_length _ _ _ _ E) as Hlen. simpl in Hlen.
    assert (len = O) by lia. subst len.
    split; [reflexivity|]. split; [exact E|]. split; [simpl; lia|].
    rewrite Hnew, app_nil_r. reflexivity.
  - cbn [subn_go may_replace Nat.eqb Nat.ltb Nat.leb orb].
    destruct (match_at r (c :: s)) as [[len g]|] eqn:E.
    + right. pose proof (match_at_length _ _ _ _ E) as Hlen.
      exists [], (take len (c :: s)), (drop len (c :: s)), g.
      rewrite take_drop, length_take_le by exact Hlen.
      split; [reflexivity|]. split; [exact E|]. split; [simpl; lia|].
      destruct len as [|k].
      * rewrite subn_go_exhausted by reflexivity. rewrite Hnew. reflexivity.
      * rewrite subn_go_skip by (simpl in Hlen; lia).
        rewrite subn_go_exhausted by reflexivity. rewrite Hnew. reflexivity.
    + destruct IH as [IH|(a & mid & b & g & Hs & Hm & Hfirst & IH)].
      * left. rewrite IH. reflexivity.
      * right. exists (c :: a), mid, b, g. rewrite IH.
        split; [rewrite Hs; reflexivity|]. split; [exact Hm|].
        split; [|reflexivity].
        intros [|k] Hk; [exact E|]. cbn [drop]. apply Hfirst.
        simpl in Hk. lia.
Qed.

(** X5.  The [catch] substitution of [fix_user_controller] changes at most
    one place, the first match: the match begins with the [});] that the
    pattern asks for, and the text put in its place begins with
    [  } catch], so the [});] that closed the statement before the [catch]
    block is removed. *)
Theorem catch_rule_drops_closing (s : str) :
  apply_rule catch_return_rule s = s \/
  exists a mid b,
    s = (a ++ mid ++ b)%list /\
    startswith (lit "});") mid = true /\
    (forall k, (k < length a)%nat ->
       match_at (pattern catch_return_rule) (drop k s) = None) /\
    apply_rule catch_return_rule s = (a ++ catch_text ++ b)%list /\
    startswith (lit "  } catch (error) {") catch_text = true.
Proof.
  unfold apply_rule, sub, subn. change (count catch_return_rule) with 1%nat.
  destruct (subn_go_first (pattern catch_return_rule) (repl catch_return_rule)
              catch_text (fun g => eq_refl) s)
    as [E|(a & mid & b & g & Hs & Hm & Hfirst & E)]; rewrite E.
  - left. reflexivity.
  - right. exists a, mid, b. split; [exact Hs|]. split.
    + apply (match_at_leading _ (lit "});")) in Hm; [|reflexivity].
      rewrite take_app_length in Hm. exact Hm.
    + split; [exact Hfirst|]. split; reflexivity.
Qed.

(** A rule that puts back what it matched and adds the text [ins] after
    it: the buffer is a subsequence of the output, which is longer by
    [ins] for each replacement. *)
Lemma insert_subn_go (n : nat) (a : regex) (lits : template) (ins : str)
    (count : nat) :
  (forall g, expand lits g = ins) ->
  forall s cnt k,
    let '(out, cnt') := subn_go (Group n a) (TRef n :: lits) count cnt k s in
    sublist (drop k s) out /\
    (length out + cnt * length ins =
     length (drop k s) + cnt' * length ins)%nat.
Proof.
  intros Hins. induction s as [|c s IH]; intros cnt k.
  - rewrite drop_nil. cbn [subn_go]. destruct k.
    2:{ split; [constructor|reflexivity]. }
    destruct (may_replace count cnt).
    2:{ split; [constructor|reflexivity]. }
    destruct (match_at (Group n a) []) as [[len g]|] eqn:E.
    2:{ split; [constructor|reflexivity]. }
    apply match_at_group in E as [Hlen Hg]. cbn [expand].
    rewrite Hg, Hins, take_nil. simpl.
    split; [apply sublist_nil_l|lia].
  - cbn [subn_go]. destruct k as [|k]; [|apply IH].
    cbn [drop]. destruct (may_replace count cnt).
    2:{ split; reflexivity. }
    destruct (match_at (Group n a) (c :: s)) as [[len g]|] eqn:E.
    + apply match_at_group in E as [Hlen Hg].
      destruct len as [|j].
      * specialize (IH (S cnt) O).
        destruct (subn_go (Group n a) (TRef n :: lits) count (S cnt) 0 s)
          as [out cnt'].
        rewrite drop_0 in IH. destruct IH as [IH1 IH2].
        cbn [expand]. rewrite Hg, Hins. simpl.
        split.
        -- apply sublist_inserts_l. constructor. exact IH1.
        -- rewrite length_app. simpl in *. lia.
      * specialize (IH (S cnt) j).
        destruct (subn_go (Group n a) (TRef n :: lits) count (S cnt) j s)
          as [out cnt'].
        destruct IH as [IH1 IH2].
        cbn [expand]. rewrite Hg, Hins.
        change (default [] (Some (take (S j) (c :: s))))
          with (take (S j) (c :: s)).
        split.
        -- rewrite <- (take_drop (S j) (c :: s)) at 1.
           apply sublist_app; [apply sublist_inserts_r; reflexivity|].
           exact IH1.
        -- rewrite !length_app, length_take. rewrite length_drop in IH2.
           rewrite Nat.mul_succ_l in IH2. cbn [length] in *. lia.
    + specialize (IH cnt O).
      destruct (subn_go (Group n a) (TRef n :: lits) count cnt 0 s)
        as [out cnt'].
      rewrite drop_0 in IH. destruct IH as [IH1 IH2].
      split; [constructor; exact IH1|cbn [length]; lia].
Qed.

(** X6.  The [_count] substitution of the whole-text [fix_user_controller]
    only adds text: every character of the buffer is kept, in order (the
    buffer is a subsequence of the output), and the output is longer than
    the buffer by the inserted block, 145 characters, once per
    replacement. *)
Theorem count_block_only_inserts (s : str) :
  let r := subn (pattern count_block_rule) (repl count_block_rule) s
                (count count_block_rule) in
  apply_rule count_block_rule s = r.1 /\
  sublist s r.1 /\
  length r.1 = (length s + r.2 * length count_block_text)%nat /\
  length count_block_text = 145%nat.
Proof.
  intros r. subst r. split; [reflexivity|].
  assert (Hlen : length count_block_text = 145%nat)
    by (vm_compute; reflexivity).
  pose proof (insert_subn_go 1
    (seqs [L "departmentId: true,"; ws; L "createdAt: true,"; ws;
           L "updatedAt: true,"])
    (tl (repl count_block_rule)) count_block_text 0
    (fun g => eq_refl) s 0 0) as H.
  change (subn_go _ _ 0 0 0 s)
    with (subn (pattern count_block_rule) (repl count_block_rule) s
               (count count_block_rule)) in H.
  destruct (subn _ _ s _) as [out k]. cbn [fst snd] in *.
  rewrite drop_0 in H. destruct H as [H1 H2].
  split; [exact H1|]. split; [lia|exact Hlen].
Qed.

Lemma count_block_text_value :
  length count_block_text = 145%nat /\
  count_block_text =
  (nl ++ lit "          _count: {" ++ nl
   ++ lit "            select: {" ++ nl
   ++ lit "              createdDocuments: true," ++ nl
   ++ lit "              assignedDocuments: true" ++ nl
   ++ lit "            }" ++ nl ++ lit "          },")%list.
Proof. vm_compute. split; reflexivity. Qed.

End RuleExtras.

(** ** Replacements that cannot bring another text about *)

Module CrossFacts.
Import Text TextFacts TextMore Notions Stability.

Section Cross.
Variables p new q : str.
Hypothesis p_nonempty : p <> [].
Hypothesis q_nonempty : q <> [].
Hypothesis ok : no_rematch q new = true.

Lemma prefix_reflected_cross (s q' : str) :
  q' = [] \/ In q' (tails (tl q)) ->
  startswith q' (replace p new s) = true -> startswith q' s = true.
Proof using p_nonempty ok.
  revert q'. induction s as [|c s IH]; intros q' Hq H.
  - rewrite replace_nil in H by assumption. exact H.
  - destruct q' as [|d q']; [reflexivity|].
    destruct Hq as [Hq|Hq]; [discriminate|].
    destruct (startswith p (c :: s)) eqn:Hp.
    + rewrite replace_hit in H by assumption.
      apply startswith_app_split in H.
      pose proof (suffix_ok q new ok _ Hq) as Hc. unfold compatible in Hc.
      apply orb_false_elim in Hc as [Hc1 Hc2].
      destruct H; congruence.
    + rewrite replace_miss in H by assumption.
      cbn [startswith] in *. apply andb_prop in H as [Hd H].
      rewrite Hd. cbn [andb].
      apply IH; [|exact H]. eapply tails_closed, Hq.
Qed.

(** Replacing [p] by [new] in a text without [q] gives a text without
    [q]. *)
Lemma replace_brings_none (s : str) :
  contains q s = false -> contains q (replace p new s) = false.
Proof using p_nonempty q_nonempty ok.
  induction s as [s IH] using (induction_ltof1 _ (@length char)).
  unfold ltof in IH. intros Hs. destruct s as [|c s].
  - rewrite replace_nil by assumption. exact Hs.
  - destruct (startswith p (c :: s)) eqn:Hp.
    + rewrite replace_hit by assumption.
      apply (no_match_across q new ok); [auto|].
      apply IH; [|apply contains_drop_false, Hs].
      rewrite length_drop. destruct p; [congruence|simpl; lia].
    + rewrite replace_miss by assumption.
      apply contains_cons_false in Hs as [Hs1 Hs2]. cbn [contains].
      apply orb_false_intro; [|apply IH; [simpl; lia|exact Hs2]].
      destruct (startswith q (c :: replace p new s)) eqn:H; [|reflexivity].
      rewrite startswith_cons in H, Hs1 by assumption.
      apply andb_prop in H as [Ha H]. rewrite Ha in Hs1. cbn [andb] in Hs1.
      apply prefix_reflected_cross in H; [congruence|].
      destruct (tl q) eqn:E; [left; reflexivity|].
      right. left. reflexivity.
Qed.

End Cross.

End CrossFacts.

(** * Further properties of the line-indexed patcher *)

Module LineExtras.
Import Text Fs TextFacts Notions MoreNotions FixUserController LineFacts
  BodyFacts.
Local Open Scope string_scope.

Lemma visited_length (fuel : nat) (lines : list str) :
  forall i, (length (visited fuel lines i) <= length lines - i)%nat.
Proof.
  induction fuel as [|fuel IH]; intros i; cbn [visited].
  - destruct (lines !! i); cbn; lia.
  - destruct (lines !! i) as [l|] eqn:E; [|cbn; lia].
    pose proof (lookup_lt_Some _ _ _ E) as Hi. cbn [length].
    destruct (body lines i l).
    + specialize (IH (S i)). lia.
    + assert (Hpos : (1 <= skip_count 0 (drop i lines))%nat).
      { apply skip_count_pos. intros Hnil.
        apply (f_equal length) in Hnil. rewrite length_drop in Hnil.
        simpl in Hnil. lia. }
      specialize (IH (i + skip_count 0 (drop i lines))%nat). lia.
Qed.

Lemma emitted_length (lines : list str) (i : nat) :
  (length (emitted lines i) <= 1)%nat.
Proof.
  unfold emitted. destruct (lines !! i) as [l|]; [|cbn; lia].
  destruct (body lines i l); cbn; lia.
Qed.

Lemma concat_emitted_length (lines : list str) (idx : list nat) :
  (length (concat (map (emitted lines) idx)) <= length idx)%nat.
Proof.
  induction idx as [|i idx IH]; [cbn; lia|].
  cbn [map concat length]. rewrite length_app.
  pose proof (emitted_length lines i). lia.
Qed.

(** X7.  The loop ends on every buffer, and it never adds a line: the
    output has at most as many lines as the input, and at least one when
    the input has one. *)
Theorem loop_never_adds_lines (lines : list str) :
  exists out,
    patch_lines lines = Some out /\
    (length out <= length lines)%nat /\
    (lines <> [] -> out <> []).
Proof.
  eexists. split; [apply patch_lines_total|]. split.
  - etransitivity; [apply concat_emitted_length|].
    pose proof (visited_length (length lines) lines 0). lia.
  - destruct lines as [|l rest]; [congruence|]. intros _.
    cbn [length visited lookup].
    change ((l :: rest) !! 0%nat) with (Some l). cbn [map concat].
    unfold emitted at 1. change ((l :: rest) !! 0%nat) with (Some l).
    cbv iota. destruct (body (l :: rest) 0 l) as [l'|] eqn:B.
    + discriminate.
    + apply body_skip_inv in B as [B _]. discriminate.
Qed.

Lemma low_index_not_skipped (lines : list str) (j : nat) (l : str) :
  (j < 80)%nat -> body lines j l <> SkipBlock.
Proof.
  intros Hj Hs. apply body_skip_inv in Hs as [Hb _].
  unfold between in Hb. apply andb_prop in Hb as [Hb _].
  apply Nat.leb_le in Hb. lia.
Qed.

(** X8.  The first 80 lines are never dropped and never moved: whatever
    the buffer, the first 80 lines of the output are the first 80 lines of
    the input, each rewritten by the rules evaluated at its own index. *)
Theorem first_lines_kept (lines out : list str) :
  patch_lines lines = Some out ->
  take 80 out = imap (fun j l => emit lines j l) (take 80 lines).
Proof.
  unfold patch_lines. intros H.
  set (seg := take 80 lines) in *.
  assert (Hseg : (length seg <= length lines)%nat)
    by (subst seg; rewrite length_take; lia).
  replace (length lines)
    with (length seg + (length lines - length seg))%nat in H at 1 by lia.
  rewrite (loop_append_run lines seg 0 []) in H.
  2:{ intros j l Hj. subst seg. apply lookup_take_Some in Hj as [Hj Hlt].
      cbn [Nat.add]. split; [exact Hj|].
      apply low_index_not_skipped. exact Hlt. }
  cbn [Nat.add app] in H. rewrite loop_acc in H.
  destruct (loop _ lines (length seg) []) as [rest|] eqn:E; [|discriminate].
  cbn in H. injection H as <-.
  destruct (decide (length lines <= 80)%nat) as [Hle|Hgt].
  - assert (rest = []) as ->.
    { rewrite loop_end in E; [congruence|].
      apply lookup_ge_None. subst seg. rewrite length_take. lia. }
    rewrite app_nil_r. apply take_ge. rewrite length_imap.
    subst seg. rewrite length_take. lia.
  - apply take_app_length'. rewrite length_imap.
    subst seg. rewrite length_take. lia.
Qed.

Lemma first_lines_kept_witness :
  take 80 (sample_pre ++ sample_post) =
  imap (fun j l => emit (sample_pre ++ sample_block ++ sample_post) j l)
       (take 80 (sample_pre ++ sample_block ++ sample_post)).
Proof.
  apply (first_lines_kept (sample_pre ++ sample_block ++ sample_post)
           (sample_pre ++ sample_post)).
  vm_compute. reflexivity.
Defined.

(** X9.  Where the [_count:] guard holds on no line with an index from 80
    to 85, the loop drops nothing: the output has the lines of the input,
    in order, each rewritten by the rules evaluated at its own index, and
    as many opening and closing braces as the input. *)
Theorem line_by_line (lines : list str) :
  (forall j l, lines !! j = Some l -> between 80 85 j = true ->
     has "_count:" (early_rules j l) = false) ->
  patch_lines lines = Some (imap (fun j l => emit lines j l) lines) /\
  (forall out, patch_lines lines = Some out ->
     length out = length lines /\
     count_in_lines lbrace out = count_in_lines lbrace lines /\
     count_in_lines rbrace out = count_in_lines rbrace lines).
Proof.
  intros Hno.
  assert (E : patch_lines lines = Some (imap (fun j l => emit lines j l) lines)).
  { unfold patch_lines.
    replace (length lines) with (length lines + 0)%nat at 1 by lia.
    rewrite (loop_append_run lines lines 0 [] 0).
    - apply loop_end. apply lookup_ge_None. lia.
    - intros j l Hj. cbn [Nat.add]. split; [exact Hj|].
      intros Hs. apply body_skip_inv in Hs as [Hb Hg].
      rewrite (Hno j l Hj Hb) in Hg. discriminate. }
  split; [exact E|]. intros out H. rewrite E in H. injection H as <-.
  split; [apply length_imap|].
  split.
  - apply (count_in_lines_emit lbrace (or_introl eq_refl) lines lines 0).
  - apply (count_in_lines_emit rbrace (or_intror eq_refl) lines lines 0).
Qed.

Lemma line_by_line_witness :
  let lines := replicate 90 (lit "        id: true,") in
  patch_lines lines = Some (imap (fun j l => emit lines j l) lines) /\
  (forall out, patch_lines lines = Some out ->
     length out = length lines /\
     count_in_lines lbrace out = count_in_lines lbrace lines /\
     count_in_lines rbrace out = count_in_lines rbrace lines).
Proof.
  intros lines. apply (line_by_line lines).
  intros j l Hj Hb. apply lookup_replicate in Hj as [-> _].
  unfold between in Hb. apply andb_prop in Hb as [H1 H2].
  apply Nat.leb_le in H1, H2.
  assert (Hc : (j = 80 \/ j = 81 \/ j = 82 \/ j = 83 \/ j = 84 \/ j = 85)%nat)
    by lia.
  destruct Hc as [->|[->|[->|[->|[->| ->]]]]]; vm_compute; reflexivity.
Defined.

Lemma skip_count_no_close (rest : list str) :
  forall d, forallb no_close rest = true -> skip_count d rest = length rest.
Proof.
  induction rest as [|l rest IH]; intros d H; [reflexivity|].
  cbn [forallb] in H. apply andb_prop in H as [Hl Hrest].
  unfold no_close in Hl. apply negb_true_iff in Hl.
  cbn [skip_count length]. rewrite Hl. cbv zeta. rewrite IH by assumption.
  reflexivity.
Qed.

(** X10.  When the [_count:] guard holds on a line with an index from 80
    to 85, on no line before it with an index in that range, and no line
    from there to the end of the buffer contains a closing brace, the loop
    drops that line and every line after it: the output is the rewritten
    lines before the guard line. *)
Theorem unclosed_block_drops_the_rest (pre rest : list str) (g : str) :
  let lines := (pre ++ g :: rest)%list in
  between 80 85 (length pre) = true ->
  (forall j l, pre !! j = Some l -> between 80 85 j = true ->
     has "_count:" (early_rules j l) = false) ->
  has "_count:" (early_rules (length pre) g) = true ->
  forallb no_close (g :: rest) = true ->
  patch_lines lines = Some (imap (fun j l => emit lines j l) pre).
Proof.
  intros lines Hrange Hearlier Hguard Hopen. unfold patch_lines.
  assert (Hlen : length lines = (length pre + S (length rest))%nat)
    by (subst lines; rewrite length_app; reflexivity).
  rewrite Hlen.
  rewrite (loop_append_run lines pre 0 []).
  2:{ intros j l Hj. cbn [Nat.add]. split.
      - subst lines. rewrite lookup_app_l by (eapply lookup_lt_Some, Hj).
        exact Hj.
      - intros Hs. apply body_skip_inv in Hs as [Hb Hg].
        rewrite (Hearlier j l Hj Hb) in Hg. discriminate. }
  cbn [Nat.add app].
  assert (Hat : lines !! length pre = Some g).
  { subst lines. rewrite lookup_app_r by lia.
    rewrite Nat.sub_diag. reflexivity. }
  rewrite (loop_step_skip _ _ _ _ _ Hat (body_skip_intro _ _ _ Hrange Hguard)).
  assert (Hdrop : drop (length pre) lines = g :: rest)
    by (subst lines; rewrite drop_app_length; reflexivity).
  rewrite Hdrop, skip_count_no_close by assumption.
  apply loop_end. apply lookup_ge_None. cbn [length]. lia.
Qed.

Lemma unclosed_block_drops_the_rest_witness :
  let rest := [lit "            select: {"; lit "              id: true,";
               lit "        role: true,"] in
  let lines := (sample_pre ++ lit "          _count: {" :: rest)%list in
  patch_lines lines = Some (imap (fun j l => emit lines j l) sample_pre).
Proof.
  intros rest.
  apply (unclosed_block_drops_the_rest sample_pre rest
           (lit "          _count: {")).
  - reflexivity.
  - intros j l Hj Hb. apply lookup_lt_Some in Hj.
    change (length sample_pre) with 80%nat in Hj.
    unfold between in Hb. apply andb_prop in Hb as [Hb _].
    apply Nat.leb_le in Hb. lia.
  - vm_compute. reflexivity.
  - vm_compute. reflexivity.
Defined.

(** X11.  The slice [lines[max(0, i-10):i+1]] of the activity-log guard
    holds the lines with an index from [i - 10] (or 0) to [i], and so at
    most eleven lines. *)
Theorem window_lines (lines : list str) (i : nat) :
  (length (window lines i) <= 11)%nat /\
  (forall k x, window lines i !! k = Some x <->
     (i - 10 + k <= i)%nat /\ lines !! (i - 10 + k)%nat = Some x).
Proof.
  unfold window. split.
  - rewrite length_take. lia.
  - intros k x. rewrite lookup_take_Some, lookup_drop. split.
    + intros [H Hk]. split; [lia|exact H].
    + intros [Hk H]. split; [exact H|lia].
Qed.

Lemma rewrite_if_brings_none (q : string) (cond : bool) (old new : string)
    (l : str) :
  lit old <> [] -> lit q <> [] -> no_rematch (lit q) (lit new) = true ->
  has q l = false -> has q (rewrite_if cond old new l) = false.
Proof.
  intros Ho Hq Hok H. unfold rewrite_if. destruct cond; [|exact H].
  apply CrossFacts.replace_brings_none; assumption.
Qed.

(** X12.  The [getUserStats] rewrite of source lines 88-89 never fires:
    when the loop reaches it, the rewrite of source lines 69-70 has already
    turned every [status: 'ACTIVE'] of the line into [isActive: true], and
    the rewrites in between bring none back, so the line cannot contain
    [where: { status: 'ACTIVE' }]. *)
Theorem where_rule_never_fires (lines : list str) (i : nat) (line : str) :
  has "status: 'ACTIVE'" (where_guard_line lines i line) = false /\
  has "where: { status: 'ACTIVE' }" (where_guard_line lines i line) = false.
Proof.
  assert (H : has "status: 'ACTIVE'" (where_guard_line lines i line) = false).
  { unfold where_guard_line. cbv zeta.
    assert (Hm : has "status: 'ACTIVE'" (middle_rules lines i line) = false).
    { unfold middle_rules. cbv zeta.
      match goal with
      | |- has _ (rewrite_if ?c _ _ ?l) = false =>
          generalize l; intros l0
      end.
      unfold rewrite_if. destruct (has "status: 'ACTIVE'" l0) eqn:E.
      - apply (Stability.replace_leaves_none (lit "status: 'ACTIVE'")
                 (lit "isActive: true")); [discriminate|].
        vm_compute. reflexivity.
      - exact E. }
    destruct (between 456 472 i); [|exact Hm].
    unfold delete_rules. cbv zeta.
    do 3 (apply rewrite_if_brings_none;
          [discriminate|discriminate|vm_compute; reflexivity|]).
    exact Hm. }
  split; [exact H|].
  unfold has in *.
  change (lit "where: { status: 'ACTIVE' }")
    with (lit "where: { " ++ lit "status: 'ACTIVE'" ++ lit " }")%list.
  apply TextMore.contains_inner, H.
Qed.

Lemma has_return_with_return (x : str) : has "return" (with_return x) = true.
Proof.
  unfold has, with_return.
  change (lit "    return ") with (lit "    " ++ lit "return" ++ lit " ")%list.
  rewrite <- !app_assoc. apply contains_app.
Qed.

Lemma returned_let {A} (v : A) (g f : A -> str) :
  (forall a, returned (g a) (f a)) ->
  returned (let x := v in g x) (let x := v in f x).
Proof. intros H. apply H. Qed.

Lemma returned_step (x y : str) (c : bool) (F : str -> str) :
  returned x y ->
  (forall z, returned x z -> returned x (F z)) ->
  returned x (let l := return_if (c && negb (has "return" y)) y in F l).
Proof.
  intros Hy HF. cbv zeta. apply HF. unfold returned in *.
  destruct Hy as [->|[Hx ->]].
  - destruct (has "return" x) eqn:E.
    + rewrite andb_false_r. left. reflexivity.
    + destruct c; [right|left]; auto.
  - rewrite has_return_with_return, andb_false_r. right. auto.
Qed.

(** X13.  The five [return] insertions of source lines 100-109 together put
    at most one [    return ] before a line, and only before a line that
    holds no [return]: what the loop appends is the line after the rewrites
    of source lines 78-98, or that line stripped of its indentation behind
    one [    return ]. *)
Theorem return_added_at_most_once (i : nat) (line : str) :
  late_rules i line = text_rules i line \/
  (has "return" (text_rules i line) = false /\
   late_rules i line = with_return (text_rules i line)).
Proof.
  change (returned (text_rules i line) (late_rules i line)).
  cbv delta [late_rules text_rules]; cbv beta.
  do 4 lazymatch goal with
       | |- returned (let x := ?v in @?g x) (let y := ?v in @?f y) =>
           refine (returned_let v g f _); intros ?; cbv beta
       end.
  match goal with
  | |- returned ?x _ => pose proof (or_introl eq_refl : returned x x) as H0
  end.
  repeat lazymatch goal with
  | H : returned ?x ?y
    |- returned ?x
         (let l := return_if (?c && negb (has "return" ?y)) ?y in @?F l) =>
      refine (returned_step x y c F H _); clear H;
      let z := fresh "z" in let Hz := fresh "H" in intros z Hz; cbv beta
  end.
  assumption.
Qed.

Lemma quiet_has (l : str) (t : string) :
  quiet l = true -> In t guard_texts -> has t l = false.
Proof.
  intros H Ht. unfold quiet in H. rewrite forallb_forall in H.
  apply negb_true_iff, H, Ht.
Qed.

Ltac guard_text := cbn [guard_texts In]; repeat first [left; reflexivity|right].

(** One [let] of a rule chain, on a line that its guard does not know. *)
Ltac quiet_step l H :=
  lazymatch goal with
  | |- (let x := ?v in @?f x) = _ =>
      let E := fresh "E" in
      assert (E : v = l)
        by (rewrite ?(quiet_has l _ H) by guard_text;
            rewrite ?andb_false_r;
            first [reflexivity|destruct (between _ _ _); reflexivity]);
      change (f v = l); rewrite E; clear E; cbv beta
  end.

Lemma delete_rules_quiet (l : str) : quiet l = true -> delete_rules l = l.
Proof.
  intros H. cbv delta [delete_rules]; cbv beta.
  repeat quiet_step l H. reflexivity.
Qed.

Lemma early_rules_quiet (i : nat) (l : str) :
  quiet l = true -> early_rules i l = l.
Proof.
  intros H. cbv delta [early_rules]; cbv beta.
  repeat quiet_step l H. reflexivity.
Qed.

Lemma middle_rules_quiet (lines : list str) (i : nat) (l : str) :
  quiet l = true -> middle_rules lines i l = l.
Proof.
  intros H. cbv delta [middle_rules activity_guard]; cbv beta.
  repeat quiet_step l H. reflexivity.
Qed.

Lemma late_rules_quiet (i : nat) (l : str) :
  quiet l = true -> late_rules i l = l.
Proof.
  intros H. cbv delta [late_rules]; cbv beta.
  rewrite delete_rules_quiet by exact H.
  repeat quiet_step l H. reflexivity.
Qed.

Lemma quiet_body (lines : list str) (i : nat) (l : str) :
  quiet l = true -> body lines i l = Append l.
Proof.
  intros H. unfold body.
  rewrite !middle_rules_quiet, !early_rules_quiet, !late_rules_quiet by
    (rewrite ?middle_rules_quiet, ?early_rules_quiet by exact H; exact H).
  rewrite !(quiet_has l _ H) by guard_text.
  rewrite !andb_false_r. reflexivity.
Qed.

(** X14.  Lines that hold none of the texts that the guards look for are
    appended as they are, at every index: a file made of such lines comes
    out of the loop line for line as it went in. *)
Theorem quiet_lines_unchanged (lines : list str) :
  forallb quiet lines = true -> patch_lines lines = Some lines.
Proof.
  intros H. apply SplitFacts.untouched_patch.
  intros i l Hl. apply quiet_body.
  rewrite forallb_forall in H. apply H.
  apply list_elem_of_In. eapply list_elem_of_lookup_2, Hl.
Qed.

Lemma quiet_lines_unchanged_witness :
  let lines := [lit "import express from 'express';"; [];
                lit "export const router = express.Router();"] in
  patch_lines lines = Some lines.
Proof.
  intros lines. apply (quiet_lines_unchanged lines). vm_compute. reflexivity.
Defined.

(** *** Reading back what was written *)

Lemma forallb_drop {A} (f : A -> bool) (n : nat) (l : list A) :
  forallb f l = true -> forallb f (drop n l) = true.
Proof.
  revert l. induction n as [|n IH]; intros [|a l] H; try exact H.
  cbn [forallb] in H. apply andb_prop in H as [_ H]. apply IH, H.
Qed.

Lemma forallb_replace (f : char -> bool) (p new s : str) :
  p <> [] -> forallb f new = true -> forallb f s = true ->
  forallb f (replace p new s) = true.
Proof.
  intros Hp Hnew.
  induction s as [s IH] using (induction_ltof1 _ (@length char)).
  unfold ltof in IH. intros Hs. destruct s as [|c s].
  - rewrite replace_nil by assumption. reflexivity.
  - destruct (startswith p (c :: s)) eqn:E.
    + rewrite replace_hit by assumption. rewrite forallb_app, Hnew.
      apply IH; [|apply forallb_drop, Hs].
      rewrite length_drop. destruct p; [congruence|simpl; lia].
    + rewrite replace_miss by assumption. cbn [forallb] in *.
      apply andb_prop in Hs as [Hc Hs]. rewrite Hc.
      apply IH; [simpl; lia|exact Hs].
Qed.

Lemma forallb_lstrip (f : char -> bool) (s : str) :
  forallb f s = true -> forallb f (lstrip s) = true.
Proof.
  induction s as [|c s IH]; intros H; [exact H|].
  cbn [lstrip]. destruct (isspace c); [|exact H].
  cbn [forallb] in H. apply andb_prop in H as [_ H]. apply IH, H.
Qed.

Lemma rewrite_if_no_break (cond : bool) (old new : string) (l : str) :
  lit old <> [] -> no_break (lit new) = true ->
  no_break l = true -> no_break (rewrite_if cond old new l) = true.
Proof.
  intros Ho Hn Hl. unfold rewrite_if. destruct cond; [|exact Hl].
  apply forallb_replace; assumption.
Qed.

Lemma return_if_no_break (cond : bool) (l : str) :
  no_break l = true -> no_break (return_if cond l) = true.
Proof.
  intros Hl. unfold return_if. destruct cond; [|exact Hl].
  unfold no_break. rewrite forallb_app.
  rewrite (forallb_lstrip _ l Hl). reflexivity.
Qed.

Ltac keep_no_break :=
  repeat first
    [ apply return_if_no_break
    | apply rewrite_if_no_break;
      [discriminate|vm_compute; reflexivity|] ].

Lemma status_removal_no_break (l : str) :
  no_break l = true -> no_break (replace (lit "status: true,") [] l) = true.
Proof. intros H. apply forallb_replace; [discriminate|reflexivity|exact H]. Qed.

Lemma early_rules_no_break (i : nat) (l : str) :
  no_break l = true -> no_break (early_rules i l) = true.
Proof. intros H. unfold early_rules. cbv zeta. keep_no_break. exact H. Qed.

Lemma middle_rules_no_break (lines : list str) (i : nat) (l : str) :
  no_break l = true -> no_break (middle_rules lines i l) = true.
Proof. intros H. unfold middle_rules. cbv zeta. keep_no_break. exact H. Qed.

Lemma late_rules_no_break (i : nat) (l : str) :
  no_break l = true -> no_break (late_rules i l) = true.
Proof.
  intros H. unfold late_rules. cbv zeta. keep_no_break.
  destruct (between 456 472 i); [|exact H].
  unfold delete_rules. cbv zeta. keep_no_break. exact H.
Qed.

(** An iteration appends no line boundary. *)
Lemma emit_no_break (lines : list str) (i : nat) (l : str) :
  no_break l = true -> no_break (emit lines i l) = true.
Proof.
  intros H. unfold emit, body. cbv zeta.
  destruct (Nat.eqb i 69 && _).
  { apply status_removal_no_break, early_rules_no_break, H. }
  destruct (between 80 85 i && _); [exact H|].
  destruct ((Nat.eqb i 287 || Nat.eqb i 383) && _).
  - apply status_removal_no_break, middle_rules_no_break,
      early_rules_no_break, H.
  - apply late_rules_no_break, middle_rules_no_break, early_rules_no_break, H.
Qed.

Lemma splitlines_no_break (s : str) :
  Forall (fun l => no_break l = true) (splitlines s).
Proof.
  induction s as [s IH] using (induction_ltof1 _ (@length char)).
  unfold ltof in IH. destruct s as [|c s]; [constructor|].
  cbn [splitlines]. destruct (is_linebreak c) eqn:Hc.
  - assert (Hs : Forall (fun l => no_break l = true) ([] :: splitlines s))
      by (constructor; [reflexivity|apply IH; simpl; lia]).
    destruct (c =? CR)%N; [|exact Hs].
    destruct s as [|d s]; [exact Hs|].
    destruct (d =? LF)%N; [|exact Hs].
    constructor; [reflexivity|apply IH; simpl; lia].
  - pose proof (IH s ltac:(simpl; lia)) as Hs.
    destruct (splitlines s) as [|l ls].
    + repeat constructor. cbn. rewrite Hc. reflexivity.
    + inversion Hs as [|? ? Hl Hls]; subst. constructor; [|exact Hls].
      cbn. rewrite Hc. exact Hl.
Qed.

Lemma patch_lines_no_break (lines out : list str) :
  Forall (fun l => no_break l = true) lines ->
  patch_lines lines = Some out ->
  Forall (fun l => no_break l = true) out.
Proof.
  intros Hl. rewrite patch_lines_total. intros [= <-].
  apply Forall_concat, Forall_forall. intros x Hx.
  apply list_elem_of_In, in_map_iff in Hx as (j & <- & _).
  unfold emitted. destruct (lines !! j) as [l|] eqn:E; [|constructor].
  pose proof (emit_no_break lines j l) as He. unfold emit in He.
  destruct (body lines j l); [|constructor].
  repeat constructor. apply He.
  rewrite Forall_forall in Hl. apply Hl. eapply list_elem_of_lookup_2, E.
Qed.

Lemma splitlines_line (x t : str) :
  no_break x = true -> splitlines (x ++ LF :: t) = x :: splitlines t.
Proof.
  induction x as [|c x IH]; intros H; [reflexivity|].
  cbn [forallb no_break] in H. unfold no_break in H. cbn [forallb] in H.
  apply andb_prop in H as [Hc Hx]. apply negb_true_iff in Hc.
  cbn [app splitlines]. rewrite Hc, (IH Hx). reflexivity.
Qed.

Lemma splitlines_one (x : str) :
  no_break x = true -> x <> [] -> splitlines x = [x].
Proof.
  induction x as [|c x IH]; intros H Hne; [congruence|].
  unfold no_break in H. cbn [forallb] in H.
  apply andb_prop in H as [Hc Hx]. apply negb_true_iff in Hc.
  cbn [splitlines]. rewrite Hc. destruct x as [|d x]; [reflexivity|].
  rewrite (IH Hx) by discriminate. reflexivity.
Qed.

Lemma splitlines_join (ls : list str) :
  Forall (fun l => no_break l = true) ls ->
  last ls <> Some [] ->
  splitlines (join [LF] ls) = ls.
Proof.
  induction ls as [|x ls IH]; intros Hb Hlast; [reflexivity|].
  inversion Hb as [|? ? Hx Hls]; subst.
  destruct ls as [|y ls].
  - cbn [join]. apply splitlines_one; [exact Hx|].
    intros ->. apply Hlast. reflexivity.
  - change (join [LF] (x :: y :: ls))
      with (x ++ LF :: join [LF] (y :: ls))%list.
    rewrite splitlines_line by exact Hx. f_equal.
    apply IH; [exact Hls|]. exact Hlast.
Qed.

(** X15.  The lines that the script writes are the lines that a later run
    reads: when the last line appended is not empty, splitting the text
    written ([new_lines] joined by line feeds) gives [new_lines] back,
    whatever line boundaries the file read had (CR LF, form feeds and
    others all come back as line feeds). *)
Theorem written_lines_read_back (content : str) (new_lines : list str) :
  patch_lines (splitlines content) = Some new_lines ->
  last new_lines <> Some [] ->
  splitlines (join [LF] new_lines) = new_lines.
Proof.
  intros Hp Hlast. apply splitlines_join; [|exact Hlast].
  eapply patch_lines_no_break; [apply splitlines_no_break|exact Hp].
Qed.

Lemma written_lines_read_back_witness :
  let content := (lit "const a = 1;" ++ [CR; LF] ++ lit "const b = 2;")%list in
  let new_lines := [lit "const a = 1;"; lit "const b = 2;"] in
  splitlines (join [LF] new_lines) = new_lines.
Proof.
  intros content new_lines.
  apply (written_lines_read_back content new_lines).
  - vm_compute. reflexivity.
  - vm_compute. discriminate.
Defined.

End LineExtras.

(** * Further properties of whole runs *)

Module SessionExtras.
Import Text Re Fs TextFacts Notions MoreNotions FsFacts FixErrors.
Local Open Scope string_scope.

Lemma foldl_patched_own (ts : list (path * (str -> str)))
    (fs : gmap path str) (p : path) (f : str -> str) (c : str) :
  NoDup (map fst ts) -> In (p, f) ts -> fs !! p = Some c ->
  foldl patched fs ts !! p = Some (f c).
Proof.
  revert fs. induction ts as [|t ts IH]; intros fs Hnd Hin Hc; [destruct Hin|].
  cbn [map] in Hnd. apply NoDup_cons in Hnd as [Hnot Hnd].
  cbn [foldl]. destruct Hin as [->|Hin].
  - rewrite foldl_patched_other
      by (intros H; apply Hnot, list_elem_of_In, H).
    unfold patched. cbn [fst snd]. rewrite Hc. apply lookup_insert_eq.
  - apply IH; [exact Hnd|exact Hin|].
    rewrite patched_lookup_other; [exact Hc|].
    intros ->. apply Hnot, list_elem_of_In.
    change (t.1) with (fst (t.1, f)). apply in_map, Hin.
Qed.

Lemma targets_NoDup : NoDup (map fst targets).
Proof. apply (bool_decide_unpack _). vm_compute. reflexivity. Qed.

(** X16.  With its five files there, [fix_errors.py] runs to its end with
    exit status 0: every file holds the text it held with the rules of its
    own patcher applied, and of no other patcher; every other file is as
    it was; the output is one [Fixed] line per file, in the order of the
    calls, and the closing line. *)
Theorem full_run_patches_each_file (fs : gmap path str) :
  (forall t, In t targets -> is_Some (fs !! t.1)) ->
  let r := main (init fs) in
  r.1 = Ok tt /\ exit_status r.1 = 0%Z /\
  (forall p f c, In (p, f) targets -> fs !! p = Some c ->
     files r.2 !! p = Some (f c)) /\
  (forall q, ~ In q (map fst targets) -> files r.2 !! q = fs !! q) /\
  stdout r.2 =
    ["Fixed " ++ status_path; "Fixed " ++ user_path; "Fixed " ++ search_path;
     "Fixed " ++ auth_path; "Fixed " ++ upload_path; all_fixes_line].
Proof.
  intros H r. subst r. rewrite main_run_each.
  destruct (run_each_ok targets (print all_fixes_line) (init fs) H)
    as (w' & -> & H2 & H3).
  unfold print. cbn [fst snd files stdout]. rewrite H2, H3.
  split; [reflexivity|]. split; [reflexivity|]. split; [|split].
  - intros p f c Hin Hc. cbn [init files].
    apply foldl_patched_own; [apply targets_NoDup|exact Hin|exact Hc].
  - intros q Hq. apply foldl_patched_other, Hq.
  - reflexivity.
Qed.

Lemma full_run_patches_each_file_witness :
  let fs : gmap path str :=
    {[status_path := lit "assignee.status !== 'ACTIVE'";
      user_path := lit "status: 'ACTIVE'";
      search_path := lit "categories: {";
      auth_path := lit "return res.status(429).json(response);";
      upload_path := lit "next();" ]} in
  let r := main (init fs) in
  r.1 = Ok tt /\ exit_status r.1 = 0%Z /\
  (forall p f c, In (p, f) targets -> fs !! p = Some c ->
     files r.2 !! p = Some (f c)) /\
  (forall q, ~ In q (map fst targets) -> files r.2 !! q = fs !! q) /\
  stdout r.2 =
    ["Fixed " ++ status_path; "Fixed " ++ user_path; "Fixed " ++ search_path;
     "Fixed " ++ auth_path; "Fixed " ++ upload_path; all_fixes_line].
Proof.
  intros fs. apply (full_run_patches_each_file fs).
  intros t Ht. cbn [targets In] in Ht.
  repeat (destruct Ht as [<-|Ht]; [vm_compute; eauto|]).
  destruct Ht.
Defined.

(** X17.  With its two files there, [fix_notifications.py] runs to its end:
    it reads and writes [statusController.ts], then [userController.ts],
    each with the notification rule applied to what it held, touches no
    other file, and prints two [Fixed] lines and the closing line. *)
Theorem notifications_full_run (fs : gmap path str) (c1 c2 : str) :
  fs !! status_path = Some c1 -> fs !! user_path = Some c2 ->
  let f := apply_rule FixNotifications.notification_rule in
  FixNotifications.main (init fs) =
  (Ok tt,
   World (<[user_path := f c2]> (<[status_path := f c1]> fs))
         [OpRead status_path; OpTruncate status_path;
          OpWrite status_path (f c1);
          OpRead user_path; OpTruncate user_path; OpWrite user_path (f c2)]
         ["Fixed " ++ status_path; "Fixed " ++ user_path;
          "All notifications fixed!"]).
Proof.
  intros H1 H2 f. rewrite notifications_main_run_each.
  unfold notification_targets, run_each. cbn [foldr fst snd].
  erewrite bind_ok by (apply patch_file_ok; exact H1).
  erewrite bind_ok.
  2:{ apply patch_file_ok. cbn [files init].
      rewrite lookup_insert_ne by discriminate. exact H2. }
  reflexivity.
Qed.

Lemma notifications_full_run_witness :
  let c1 := lit "const a = 1;" in
  let c2 := lit "const b = 2;" in
  let fs : gmap path str := {[status_path := c1; user_path := c2]} in
  let f := apply_rule FixNotifications.notification_rule in
  FixNotifications.main (init fs) =
  (Ok tt,
   World (<[user_path := f c2]> (<[status_path := f c1]> fs))
         [OpRead status_path; OpTruncate status_path;
          OpWrite status_path (f c1);
          OpRead user_path; OpTruncate user_path; OpWrite user_path (f c2)]
         ["Fixed " ++ status_path; "Fixed " ++ user_path;
          "All notifications fixed!"]).
Proof.
  intros c1 c2 fs.
  apply (notifications_full_run fs c1 c2); vm_compute; reflexivity.
Defined.

(** X18.  Each patcher of [fix_errors.py] touches its own file only, from
    whatever state it starts.  When the file is missing it raises
    [FileNotFoundError] before it writes or prints anything; when the file
    is there it ends normally and the file holds its rules applied in
    order to the text read. *)
Theorem patcher_touches_only_its_file (f : M unit) (p : path)
    (rs : list rule) (w : world) :
  In (f, p, rs) patchers ->
  (forall q, q <> p -> files (f w).2 !! q = files w !! q) /\
  (files w !! p = None -> f w = (Raise (FileNotFoundError p), w)) /\
  (forall c, files w !! p = Some c ->
     (f w).1 = Ok tt /\ files (f w).2 !! p = Some (apply_rules rs c) /\
     stdout (f w).2 = (stdout w ++ [("Fixed " ++ p)%string])%list).
Proof.
  intros Hin. rewrite (RuleExtras.patchers_shape f p rs Hin).
  split; [|split].
  - intros q Hq. destruct (files w !! p) as [c|] eqn:E.
    + rewrite (patch_file_ok p _ w c E). cbn [snd files].
      apply lookup_insert_ne. congruence.
    + rewrite (patch_file_missing p _ w E). reflexivity.
  - apply patch_file_missing.
  - intros c E. rewrite (patch_file_ok p _ w c E). cbn [fst snd files stdout].
    rewrite lookup_insert_eq. auto.
Qed.

Lemma patcher_touches_only_its_file_witness :
  let w := World {[status_path := lit "x"]} [OpRead status_path] ["before"] in
  (forall q, q <> auth_path ->
     files (fix_auth_controller w).2 !! q = files w !! q) /\
  (files w !! auth_path = None ->
     fix_auth_controller w = (Raise (FileNotFoundError auth_path), w)) /\
  (forall c, files w !! auth_path = Some c ->
     (fix_auth_controller w).1 = Ok tt /\
     files (fix_auth_controller w).2 !! auth_path
       = Some (apply_rules auth_rules c) /\
     stdout (fix_auth_controller w).2
       = (stdout w ++ [("Fixed " ++ auth_path)%string])%list).
Proof.
  intros w.
  apply (patcher_touches_only_its_file fix_auth_controller auth_path
           auth_rules w).
  do 3 right. left. reflexivity.
Defined.

(** X19.  A run of [fix_user_controller.py].  Without the controller file
    it ends with [FileNotFoundError] and exit status 1, having written
    and printed nothing.  With the file it always reaches its end with
    exit status 0 (the loop terminates on every input): the file holds the
    appended lines joined by line feeds, every other file is as it was,
    and the output is the [Fixed] line and the closing line. *)
Theorem line_patcher_run (fs : gmap path str) :
  let r := FixUserController.main (init fs) in
  match fs !! FixUserController.controller_path with
  | None =>
      r = (Raise (FileNotFoundError FixUserController.controller_path),
           init fs)
      /\ exit_status r.1 = 1%Z
  | Some c =>
      exists new_lines,
        FixUserController.patch_lines (splitlines c) = Some new_lines /\
        r = (Ok tt,
             World (<[FixUserController.controller_path :=
                        join [LF] new_lines]> fs)
                   [OpRead FixUserController.controller_path;
                    OpTruncate FixUserController.controller_path;
                    OpWrite FixUserController.controller_path
                      (join [LF] new_lines)]
                   ["Fixed " ++ FixUserController.controller_path;
                    "User controller fixed!"]) /\
        exit_status r.1 = 0%Z
  end.
Proof.
  intros r. subst r. unfold FixUserController.main.
  destruct (fs !! FixUserController.controller_path) as [c|] eqn:E.
  - eexists. split; [apply LineFacts.patch_lines_total|].
    erewrite bind_ok.
    2:{ apply (ScriptFacts.fix_user_controller_run (init fs) c);
          [exact E|apply LineFacts.patch_lines_total]. }
    split; reflexivity.
  - erewrite bind_raise.
    2:{ unfold FixUserController.fix_user_controller.
        apply bind_raise. unfold read_text. cbn [init files].
        rewrite E. reflexivity. }
    split; reflexivity.
Qed.

End SessionExtras.
